(** * URL shortener microservice: the expiring entry store of [apis.js]

    A shallow embedding of the request handlers of [src/apis.js] and of the
    helpers they call, followed by the properties of the store they
    maintain.

    Conventions of the embedding.
    - The two module-level [Map]s, [urlDatabase] and [expiryDatabase], are
      the two fields of the record [store]; a handler is a function from a
      store to a response and a store.
    - A JavaScript [Date] is its time value: a number of milliseconds, or
      NaN for an invalid date ([date]).  The readings of the system clock
      ([new Date()], [Date.now()]) are arguments of the handlers, one
      argument per reading.
    - [Math.floor(Math.random() * chars.length)] is read from an oracle
      [rand : nat -> nat], the i-th draw of the process.
    - Numbers that the code only ever uses as integers (the validity, the
      access counter, time values) are integers here.  The counter starts
      at 0 and changes by [++] only, which is exact on JavaScript numbers
      below 2^53.
    - The calls to [log] write to the console and touch nothing else; they
      are left out, except that an exception raised while the argument of a
      call is built takes the handler to its [catch] block.
    - A handler is an [async] function.  The redirection, whose requests
      are also studied in flight together, keeps its [await]s ([async],
      [resolve_async]); [resolve] is that handler run from the request to
      the response, as the other handlers are given. *)

From stdpp Require Import gmap strings list fin_maps.
From stdpp Require Import pretty.
From Stdlib Require Import ZArith Ascii String Lia.

Local Open Scope string_scope.
Local Open Scope Z_scope.

(** ** JavaScript values used by the handlers *)

(** The time value of a [Date] object. *)
Inductive date : Type :=
| ValidDate (t : Z)
| InvalidDate.

#[global] Instance date_eq_dec : EqDecision date.
Proof. solve_decision. Defined.

(** The largest time value a [Date] can hold (ECMAScript, 8.64e15 ms). *)
Definition MAX_TIME : Z := 8640000000000000.

(** [new Date(v)] for a finite integral number [v]: TimeClip. *)
Definition TimeClip (v : Z) : date :=
  if Z.abs v <=? MAX_TIME then ValidDate v else InvalidDate.

(** [a > b] on two [Date]s: the comparison of their time values, false as
    soon as one of them is NaN. *)
Definition Date_gt (a b : date) : bool :=
  match a, b with
  | ValidDate x, ValidDate y => y <? x
  | _, _ => false
  end.
Arguments Date_gt : simpl never.

(** The value of a call: [undefined] for a function without [return]. *)
Inductive js_value : Type :=
| Undefined
| Number (n : Z).

(** Truthiness of an optional string field of the request body:
    [undefined] and the empty string are falsy. *)
Definition truthy (field : option string) : option string :=
  match field with
  | Some s => if String.eqb s "" then None else Some s
  | None => None
  end.

(** [s.charAt(k)]: the empty string when [k] is out of range. *)
Definition charAt (s : string) (k : nat) : string :=
  match String.get k s with
  | Some c => String c EmptyString
  | None => EmptyString
  end.

(** ** Code generator and validator *)

Definition chars : string :=
  "ABCDEFGHIJKLMNOPQRSTUVWXYZabcdefghijklmnopqrstuvwxyz0123456789".

(** The body of the [for] loop of [generateShortcode], [n] iterations left;
    [pos] is the number of draws made so far. *)
Fixpoint generateShortcode_loop (rand : nat → nat) (pos n : nat)
    (result : string) : string :=
  match n with
  | O => result
  | S n' =>
      generateShortcode_loop rand (S pos) n'
        (result +:+ charAt chars (rand pos))
  end.

(** [generateShortcode(length = 6)]: [None] is the call without argument. *)
Definition generateShortcode (rand : nat → nat) (pos : nat)
    (length : option nat) : string :=
  generateShortcode_loop rand pos (default 6%nat length) "".

(** A string whose characters all come from [chars]. *)
Fixpoint from_chars (s : string) : Prop :=
  match s with
  | EmptyString => True
  | String c s' => (∃ k, (k < 62)%nat ∧ String.get k chars = Some c) ∧ from_chars s'
  end.

(** The character class [[a-zA-Z0-9]]. *)
Definition is_alnum (c : ascii) : bool :=
  let n := N_of_ascii c in
  ((97 <=? n) && (n <=? 122) || (65 <=? n) && (n <=? 90)
   || (48 <=? n) && (n <=? 57))%N.

Fixpoint all_alnum (s : string) : bool :=
  match s with
  | EmptyString => true
  | String c s' => is_alnum c && all_alnum s'
  end.

(** [/^[a-zA-Z0-9]+$/.test(s)]: one character at least, all of the class.
    Without the [m] flag [$] matches at the end of the input only. *)
Definition test_alnum_plus (s : string) : bool :=
  match s with
  | EmptyString => false
  | String _ _ => all_alnum s
  end.

(** A string that passes the test is ASCII, so that the number of its
    bytes is its JavaScript [length]. *)
Definition isValidShortcode (shortcode : string) : bool :=
  test_alnum_plus shortcode
  && (3 <=? String.length shortcode)%nat
  && (String.length shortcode <=? 20)%nat.

(** ** The store *)

(** A value of [urlDatabase].  [createdAt] is the reading of the clock at
    insertion, always a valid date. *)
Record urlData : Type := mkUrlData {
  originalUrl : string;
  createdAt : Z;
  accessCount : Z
}.

#[global] Instance urlData_eq_dec : EqDecision urlData.
Proof. solve_decision. Defined.

(** The two maps of the module, keyed by shortcode. *)
Record store : Type := mkStore {
  urlDatabase : gmap string urlData;
  expiryDatabase : gmap string date
}.

#[global] Instance store_eq_dec : EqDecision store.
Proof. solve_decision. Defined.

(** The state of the process when it starts. *)
Definition initial_store : store := mkStore ∅ ∅.

(** [urlDatabase.delete(shortcode); expiryDatabase.delete(shortcode)] *)
Definition evict (shortcode : string) (st : store) : store :=
  mkStore (delete shortcode (urlDatabase st))
          (delete shortcode (expiryDatabase st)).

(** [isExpired(shortcode)], [now] being the value of [new Date()]. *)
Definition isExpired (now : Z) (st : store) (shortcode : string) : bool :=
  match expiryDatabase st !! shortcode with
  | None => true
  | Some expiryTime => Date_gt (ValidDate now) expiryTime
  end.

(** One iteration of the loop of [cleanupExpiredUrls]. *)
Definition cleanup_entry (now : Z) (st : store) (entry : string * date) : store :=
  if Date_gt (ValidDate now) entry.2 then evict entry.1 st else st.

(** [cleanupExpiredUrls()]: the loop runs over the entries of
    [expiryDatabase]; deleting the entry under the cursor does not disturb
    the iteration of a [Map].  The function has no [return]. *)
Definition cleanupExpiredUrls (now : Z) (st : store) : js_value * store :=
  (Undefined, foldl (cleanup_entry now) st (map_to_list (expiryDatabase st))).

(** ** Requests and responses *)

(** The [validity] field of the body of a POST: absent, a number that is an
    integer, or any other JSON value that converts to a string, as the
    template of the log line needs it to (an object that cannot be
    converted is not a value of this type). *)
Inductive validity_field : Type :=
| ValidityAbsent
| ValidityInteger (v : Z)
| ValidityOther.

(** The body of a POST, when the request has one; [url] and [shortcode]
    are strings when they are given. *)
Record create_body : Type := mkCreateBody {
  url : option string;
  validity : validity_field;
  shortcode : option string
}.

Inductive json_body : Type :=
| ErrorBody (error message : string)
| CreatedBody (shortLink : string) (expiry : Z)
| StatsBody (shortcode originalUrl : string) (createdAt : Z)
    (expiry : option date) (accessCount : Z).

Inductive response : Type :=
| Json (status : Z) (body : json_body)
| Redirect (status : Z) (location : string).

#[global] Instance json_body_eq_dec : EqDecision json_body.
Proof. solve_decision. Defined.
#[global] Instance response_eq_dec : EqDecision response.
Proof. solve_decision. Defined.

(** The error responses of the two GET handlers and the conflict of POST. *)
Definition not_found : response :=
  Json 404 (ErrorBody "Not Found" "Shortcode not found").
Definition route_not_found : response :=
  Json 404 (ErrorBody "Not Found" "Route not found").
Definition gone : response :=
  Json 410 (ErrorBody "Gone" "Short URL has expired").
Definition conflict : response :=
  Json 409 (ErrorBody "Conflict" "Shortcode already exists").

(** The entry after [urlData.accessCount++]. *)
Definition accessed (d : urlData) : urlData :=
  mkUrlData (originalUrl d) (createdAt d) (accessCount d + 1).

(** An [async] function in the course of its execution: it has returned,
    or it is suspended at an [await] and goes on, when it is resumed, from
    the store as it is then. *)
#[warnings="-register-all"]
Inductive async (R : Type) : Type :=
| Return (r : R)
| Await (k : store → async R * store).
Arguments Return {R} r.
Arguments Await {R} k.

(** An [async] function resumed at once at each of its [await]s. *)
Fixpoint complete {R : Type} (t : async R) (st : store) : R * store :=
  match t with
  | Return r => (r, st)
  | Await k => let (t', st') := k st in complete t' st'
  end.

(** [validity = 30] in the destructuring of the body. *)
Definition validity_or_default (f : validity_field) : validity_field :=
  match f with
  | ValidityAbsent => ValidityInteger 30
  | _ => f
  end.

(** [do { c = generateShortcode() } while (urlDatabase.has(c))], at most
    [fuel] rounds of it; [None] when the loop is still running then. *)
Fixpoint generate_unique (fuel : nat) (rand : nat → nat) (pos : nat)
    (db : gmap string urlData) : option string :=
  match fuel with
  | O => None
  | S fuel' =>
      let finalShortcode := generateShortcode rand pos None in
      if decide (is_Some (db !! finalShortcode))
      then generate_unique fuel' rand (pos + 6)%nat db
      else Some finalShortcode
  end.

Section Handlers.

(** What the process takes from its platform: the [protocol] of
    [new URL(s)] ([None] when the constructor throws) and the base of the
    short links. *)
Variable URL_protocol : string → option string.
Variable BASE_URL : string.

Definition isValidUrl (s : string) : bool :=
  match URL_protocol s with
  | Some protocol => String.eqb protocol "http:" || String.eqb protocol "https:"
  | None => false
  end.

(** The last part of the POST handler, from "Calculate expiry time" on.
    The sum [Date.now() + validity * 60 * 1000] of the code is exact
    whenever it is in the range of the dates (below 2^53) and out of the
    range whenever the integer sum is, so that [TimeClip] of the integer
    sum is the date of the code.  [expiryTime.toISOString()] throws a
    RangeError on an invalid date, after the two [set]s: the [catch] block
    answers 500 then. *)
Definition create_store (now created : Z) (url : string) (validity : Z)
    (finalShortcode : string) (st : store) : response * store :=
  let expiryTime := TimeClip (now + validity * 60 * 1000) in
  let st' :=
    mkStore (<[finalShortcode := mkUrlData url created 0]> (urlDatabase st))
            (<[finalShortcode := expiryTime]> (expiryDatabase st)) in
  let shortLink := BASE_URL +:+ "/" +:+ finalShortcode in
  match expiryTime with
  | ValidDate e => (Json 201 (CreatedBody shortLink e), st')
  | InvalidDate =>
      (Json 500 (ErrorBody "Internal Server Error"
                   "An error occurred while creating the short URL"), st')
  end.

(** POST /shorturls.  [now] is the value of [Date.now()], [created] that
    of the later [new Date()]; the answer is [None] when the generation
    loop has not ended after [fuel] rounds. *)
Definition create (fuel : nat) (rand : nat → nat) (pos : nat)
    (now created : Z) (body : create_body) (st : store)
    : option response * store :=
  match truthy (url body) with
  | None => (Some (Json 400 (ErrorBody "Bad Request" "URL is required")), st)
  | Some url =>
      if negb (isValidUrl url) then
        (Some (Json 400 (ErrorBody "Bad Request" "Invalid URL format")), st)
      else
        match validity_or_default (validity body) with
        | ValidityInteger v =>
            if v <=? 0 then
              (Some (Json 400 (ErrorBody "Bad Request"
                 "Validity must be a positive integer representing minutes")),
               st)
            else
              match truthy (shortcode body) with
              | Some shortcode =>
                  if negb (isValidShortcode shortcode) then
                    (Some (Json 400 (ErrorBody "Bad Request"
                       "Shortcode must be alphanumeric, 3-20 characters long")),
                     st)
                  else if decide (is_Some (urlDatabase st !! shortcode)) then
                    (Some conflict, st)
                  else
                    let r := create_store now created url v shortcode st in
                    (Some r.1, r.2)
              | None =>
                  match generate_unique fuel rand pos (urlDatabase st) with
                  | Some finalShortcode =>
                      let r := create_store now created url v finalShortcode st in
                      (Some r.1, r.2)
                  | None => (None, st)
                  end
              end
        | _ =>
            (Some (Json 400 (ErrorBody "Bad Request"
               "Validity must be a positive integer representing minutes")),
             st)
        end
  end.

(** GET /shorturls/:shortcode.  [now] is the value of [new Date()] in
    [isExpired]. *)
Definition getStats (now : Z) (shortcode : string) (st : store)
    : response * store :=
  match urlDatabase st !! shortcode with
  | None => (not_found, st)
  | Some urlData =>
      if isExpired now st shortcode then (gone, evict shortcode st)
      else
        let expiryTime := expiryDatabase st !! shortcode in
        (Json 200 (StatsBody shortcode (originalUrl urlData)
                     (createdAt urlData) expiryTime (accessCount urlData)),
         st)
  end.

(** GET /:shortcode, the redirection, with its [await]s.  [now] is the
    value of [new Date()] in [isExpired].  The handler runs without
    interruption up to [await log(...)]; what follows the [await] sends the
    response that is ready by then ([urlData] is the object of the map, its
    [originalUrl] is never assigned). *)
Definition resolve_async (now : Z) (shortcode : string) (st : store)
    : async response * store :=
  if String.eqb shortcode "shorturls" || String.eqb shortcode "health" then
    (Return route_not_found, st)
  else
    match urlDatabase st !! shortcode with
    | None => (Await (λ st', (Return not_found, st')), st)
    | Some urlData =>
        if isExpired now st shortcode then
          (Await (λ st', (Return gone, st')), evict shortcode st)
        else
          let urlData' := accessed urlData in
          (Await (λ st', (Return (Redirect 302 (originalUrl urlData')), st')),
           mkStore (<[shortcode := urlData']> (urlDatabase st))
                   (expiryDatabase st))
    end.

(** The handler run from the request to the response with nothing in
    between. *)
Definition resolve (now : Z) (shortcode : string) (st : store)
    : response * store :=
  let r := resolve_async now shortcode st in
  complete r.1 r.2.

End Handlers.

(** ** Runs of the service *)

(** What the process can be asked to do: the three routes and the timer
    of [setInterval]. *)
Inductive request : Type :=
| PostShorturls (fuel : nat) (rand : nat → nat) (pos : nat)
    (now created : Z) (body : create_body)
| GetStats (now : Z) (shortcode : string)
| GetRedirect (now : Z) (shortcode : string)
| CleanupTimer (now : Z).

Section Runs.

Variable URL_protocol : string → option string.
Variable BASE_URL : string.

(** The store after a request. *)
Definition handle (r : request) (st : store) : store :=
  match r with
  | PostShorturls fuel rand pos now created body =>
      (create URL_protocol BASE_URL fuel rand pos now created body st).2
  | GetStats now shortcode => (getStats now shortcode st).2
  | GetRedirect now shortcode => (resolve now shortcode st).2
  | CleanupTimer now => (cleanupExpiredUrls now st).2
  end.

Definition run (rs : list request) (st : store) : store :=
  foldl (λ st r, handle r st) st rs.

End Runs.

(** [resolve(shortcode)] called once per clock reading of [nows], in
    sequence: the responses and the final store. *)
Fixpoint resolve_seq (nows : list Z) (shortcode : string) (st : store)
    : list response * store :=
  match nows with
  | [] => ([], st)
  | now :: nows' =>
      let r := resolve now shortcode st in
      let rs := resolve_seq nows' shortcode r.2 in
      (r.1 :: rs.1, rs.2)
  end.

(** *** Requests in flight

    Node runs a handler without interruption from its start, or from the
    [await] it is resumed at, to its next [await] or its end; between two
    such segments the segments of other requests may run.  The requests
    for one shortcode that are in flight together are the tasks of a
    pool; an event starts a request that has arrived ([now] is the clock
    its [isExpired] reads) or resumes one that is suspended. *)
Inductive task : Type :=
| Queued
| Suspended (k : store → async response * store)
| Finished (r : response).

Inductive event : Type :=
| Start (i : nat) (now : Z)
| Resume (i : nat).

Definition settle (t : async response) : task :=
  match t with
  | Return r => Finished r
  | Await k => Suspended k
  end.

(** One segment; [None] when the task of the event cannot run. *)
Definition loop_step (shortcode : string) (ev : event) (st : store)
    (tasks : list task) : option (store * list task) :=
  match ev with
  | Start i now =>
      match tasks !! i with
      | Some Queued =>
          let r := resolve_async now shortcode st in
          Some (r.2, <[i := settle r.1]> tasks)
      | _ => None
      end
  | Resume i =>
      match tasks !! i with
      | Some (Suspended k) =>
          let r := k st in
          Some (r.2, <[i := settle r.1]> tasks)
      | _ => None
      end
  end.

Fixpoint loop_run (shortcode : string) (evs : list event) (st : store)
    (tasks : list task) : option (store * list task) :=
  match evs with
  | [] => Some (st, tasks)
  | ev :: evs' =>
      match loop_step shortcode ev st tasks with
      | Some (st', tasks') => loop_run shortcode evs' st' tasks'
      | None => None
      end
  end.

Definition finished (t : task) : bool :=
  match t with
  | Finished _ => true
  | _ => false
  end.

Definition started (t : task) : nat :=
  match t with
  | Queued => 0
  | _ => 1
  end.

(** The segments a task has still to run, at most. *)
Definition pending (t : task) : nat :=
  match t with
  | Queued => 2
  | Suspended _ => 1
  | Finished _ => 0
  end.

(** The clock readings of the requests, in the order of their starts. *)
Fixpoint start_times (evs : list event) : list Z :=
  match evs with
  | [] => []
  | Start _ now :: evs' => now :: start_times evs'
  | Resume _ :: evs' => start_times evs'
  end.

(** A suspended task that has only its response left to send. *)
Definition responding (t : task) : Prop :=
  match t with
  | Suspended k => ∃ r, ∀ st, k st = (Return r, st)
  | _ => True
  end.

(** A task that, once started, has the redirection to [location] as its
    response. *)
Definition redirecting (location : string) (t : task) : Prop :=
  match t with
  | Queued => True
  | Suspended k => ∀ st, k st = (Return (Redirect 302 location), st)
  | Finished r => r = Redirect 302 location
  end.

(** [getStats] called for each (clock reading, shortcode) of [calls], in
    sequence: the final store. *)
Definition getStats_seq (calls : list (Z * string)) (st : store) : store :=
  foldl (λ st call, (getStats call.1 call.2 st).2) st calls.

(** A redirection, the successful outcome of [resolve]. *)
Definition is_redirect (r : response) : bool :=
  match r with
  | Redirect _ _ => true
  | Json _ _ => false
  end.

(** The two maps hold the same shortcodes. *)
Definition store_consistent (st : store) : Prop :=
  dom (urlDatabase st) = dom (expiryDatabase st).

#[global] Instance store_consistent_dec st : Decision (store_consistent st).
Proof. unfold store_consistent. apply _. Defined.

(** A stand-in for the URL parser, for the examples: it knows the two
    schemes the service accepts. *)
Definition example_protocol (s : string) : option string :=
  if String.prefix "https://" s then Some "https:"
  else if String.prefix "http://" s then Some "http:"
  else None.

Definition example_base : string := "http://localhost:3000".

(** A source of draws for the examples: 0, 1, 2, ... modulo 62. *)
Definition example_rand (i : nat) : nat := (i mod 62)%nat.

(** Stores for the examples: one entry that expires at 60000 ms, under a
    free shortcode and under the name of a route; a mix of an expired and
    a live entry at 120000 ms. *)
Definition abc_store : store :=
  mkStore {[ "abc" := mkUrlData "https://old.example/" 0 0 ]}
          {[ "abc" := ValidDate 60000 ]}.

Definition shorturls_store : store :=
  mkStore {[ "shorturls" := mkUrlData "https://example.com/" 0 0 ]}
          {[ "shorturls" := ValidDate 60000 ]}.

Definition mixed_store : store :=
  mkStore (<[ "old1" := mkUrlData "https://old.example/" 0 4 ]>
             {[ "live1" := mkUrlData "https://example.com/" 90000 1 ]})
          (<[ "old1" := ValidDate 60000 ]> {[ "live1" := ValidDate 1890000 ]}).

Definition abc_body : create_body :=
  mkCreateBody (Some "https://example.com/") (ValidityInteger 1) (Some "abc").

(** ** Further notions for the properties of the handlers *)

(** The shortcode of the [j]-th round of the generation loop of a POST
    that starts at the draw [pos]. *)
Definition candidate (rand : nat → nat) (pos j : nat) : string :=
  generateShortcode rand (pos + 6 * j) None.

(** The clock a request reads ([Date.now()] for a POST). *)
Definition request_clock (r : request) : Z :=
  match r with
  | PostShorturls _ _ _ now _ _ => now
  | GetStats now _ => now
  | GetRedirect now _ => now
  | CleanupTimer now => now
  end.

(** The draws of a POST are in the range of the alphabet, as those of
    [Math.floor(Math.random() * 62)] are. *)
Definition draws_in_range (r : request) : Prop :=
  match r with
  | PostShorturls _ rand _ _ _ _ => ∀ i, (rand i < 62)%nat
  | _ => True
  end.

(** An entry of [expiryDatabase] that the cleanup at [now] removes. *)
Definition expired_entry (now : Z) (entry : string * date) : Prop :=
  Date_gt (ValidDate now) entry.2 = true.

#[global] Instance expired_entry_dec now entry : Decision (expired_entry now entry).
Proof. unfold expired_entry. apply _. Defined.

(** The characters of a string, as a list. *)
Fixpoint string_chars (s : string) : list ascii :=
  match s with
  | EmptyString => []
  | String c s' => c :: string_chars s'
  end.

(** The status of a response. *)
Definition response_status (r : response) : Z :=
  match r with
  | Json status _ => status
  | Redirect status _ => status
  end.

(** What holds of every entry the service stores under a shortcode. *)
Definition entry_well_formed (URL_protocol : string → option string)
    (c : string) (d : urlData) : Prop :=
  isValidShortcode c = true
  ∧ isValidUrl URL_protocol (originalUrl d) = true
  ∧ 0 ≤ accessCount d.

(** A task that, once started, has one of the responses [rs] to send. *)
Definition answers_among (rs : list response) (t : task) : Prop :=
  match t with
  | Queued => True
  | Suspended k => ∃ r, (∀ st, k st = (Return r, st)) ∧ r ∈ rs
  | Finished r => r ∈ rs
  end.

(** ** The logging module

    The module that sends log records to the evaluation service and logs
    the requests of an Express application.  What it prints on the console
    is left out; what it posts is kept, as the list of the calls of
    [axios.post].  The platform gives [toLowerCase]; the service answers
    through [axios_post], [None] when the promise of [axios.post] is
    rejected (network error, timeout, or a status that is not 2xx). *)
Module Logger.

Definition API_URL : string := "http://20.244.56.144/evaluation-service/logs".
Definition VALID_STACKS : list string := ["backend"; "frontend"].
Definition VALID_LEVELS : list string := ["debug"; "info"; "warn"; "error"; "fatal"].
Definition VALID_PACKAGES : list string :=
  ["cache"; "controller"; "cron_job"; "db"; "domain"; "handler"; "repository";
   "route"; "service"].

Record logData : Type := mkLogData {
  stack : string;
  level : string;
  package : string;
  message : string
}.

(** [axios.post(API_URL, logData, { headers, timeout })]; the
    [Authorization] header is [None] when [authHeader] is [undefined]. *)
Record post_call : Type := mkPostCall {
  post_url : string;
  post_data : logData;
  post_content_type : string;
  post_authorization : option string;
  post_timeout : Z
}.

(** The response of the service: its status and the [logID] of its body,
    [None] when the body has none. *)
Record post_response : Type := mkPostResponse {
  status : Z;
  logID : option string
}.

(** [list.includes(s)] *)
Definition includes (l : list string) (s : string) : bool :=
  existsb (String.eqb s) l.
Arguments includes : simpl never.

(** What [requestLogger] reads of the request. *)
Record request_info : Type := mkRequestInfo {
  method : string;
  path : string;
  ip : string;
  authorization : option string
}.

Section Log.

Variable toLowerCase : string → string.
Variable axios_post : post_call → option post_response.

(** [log(stack, level, packageName, message, authHeader)]: the value it
    resolves to ([None] is [null]) and the posts it has made. *)
Definition log (stack level packageName message : string)
    (authHeader : option string) : option string * list post_call :=
  if negb (includes VALID_STACKS (toLowerCase stack)) then (None, [])
  else if negb (includes VALID_LEVELS (toLowerCase level)) then (None, [])
  else if negb (includes VALID_PACKAGES (toLowerCase packageName)) then (None, [])
  else
    let logData :=
      mkLogData (toLowerCase stack) (toLowerCase level)
                (toLowerCase packageName) message in
    let call := mkPostCall API_URL logData "application/json" authHeader 5000 in
    match axios_post call with
    | Some response =>
        if (status response =? 200)
        then match truthy (logID response) with
             | Some id => (Some id, [call])
             | None => (None, [call])
             end
        else (None, [call])
    | None => (None, [call])
    end.

(** The level [res.end] logs the response with. *)
Definition response_level (statusCode : Z) : string :=
  if 500 <=? statusCode then "error"
  else if 400 <=? statusCode then "warn"
  else "info".

(** The first part of [requestLogger]: the record of the request that
    starts. [requestId] is the value of
    [Math.random().toString(36).substr(2, 9)]. *)
Definition requestLogger_start (req : request_info) (requestId : string)
    : option string * list post_call :=
  let requestMessage :=
    "Request started - " +:+ method req +:+ " " +:+ path req
    +:+ " (ID: " +:+ requestId +:+ ") | IP: " +:+ ip req in
  log "backend" "info" "handler" requestMessage (authorization req).

(** The [res.end] that [requestLogger] installs, up to the call of the
    original [end]: the record of the response.  [startTime] and [endTime]
    are the two values of [Date.now()]. *)
Definition requestLogger_end (req : request_info) (requestId : string)
    (startTime endTime statusCode : Z) : option string * list post_call :=
  let duration := endTime - startTime in
  let responseMessage :=
    "Request completed - " +:+ method req +:+ " " +:+ path req
    +:+ " (ID: " +:+ requestId +:+ ") | Status: " +:+ pretty statusCode
    +:+ " | Duration: " +:+ pretty duration +:+ "ms" in
  log "backend" (response_level statusCode) "handler" responseMessage
      (authorization req).

End Log.

(** A call whose record the service accepts the fields of. *)
Definition valid_call (call : post_call) : Prop :=
  post_url call = API_URL
  ∧ post_timeout call = 5000
  ∧ stack (post_data call) ∈ VALID_STACKS
  ∧ level (post_data call) ∈ VALID_LEVELS
  ∧ package (post_data call) ∈ VALID_PACKAGES.

End Logger.

(** A stand-in for [toLowerCase], for the examples: the letters A to Z. *)
Definition example_toLowerCase_char (c : ascii) : ascii :=
  let n := N_of_ascii c in
  if ((65 <=? n) && (n <=? 90))%N then ascii_of_N (n + 32) else c.

Fixpoint example_toLowerCase (s : string) : string :=
  match s with
  | EmptyString => EmptyString
  | String c s' => String (example_toLowerCase_char c) (example_toLowerCase s')
  end.

(** A stand-in for the service, for the examples: it accepts every record
    and answers with the same identifier. *)
Definition example_service (call : Logger.post_call) : option Logger.post_response :=
  Some (Logger.mkPostResponse 200 (Some "log-1")).

(** ** Examples *)

Example isValidShortcode_abc : isValidShortcode "abc" = true.
Proof. reflexivity. Qed.
Example isValidShortcode_ab : isValidShortcode "ab" = false.
Proof. reflexivity. Qed.
Example isValidShortcode_dash : isValidShortcode "ab-cd" = false.
Proof. reflexivity. Qed.
Example generateShortcode_first : generateShortcode example_rand 0 None = "ABCDEF".
Proof. reflexivity. Qed.
Example generateShortcode_out_of_range :
  generateShortcode (λ _, 62%nat) 0 None = "".
Proof. reflexivity. Qed.

(** A creation without shortcode at 1000 ms, a redirection, the statistics
    before the expiry at 1801000 ms and after it. *)
Example create_resolve_getStats :
  let body := mkCreateBody (Some "https://example.com/a") ValidityAbsent None in
  let r0 := create example_protocol example_base 1 example_rand 0 1000 1001 body
              initial_store in
  let r1 := resolve 2000 "ABCDEF" r0.2 in
  let r2 := getStats 1801000 "ABCDEF" r1.2 in
  let r3 := getStats 1801001 "ABCDEF" r2.2 in
  let r4 := getStats 1801002 "ABCDEF" r3.2 in
  r0.1 = Some (Json 201 (CreatedBody "http://localhost:3000/ABCDEF" 1801000))
  ∧ r1.1 = Redirect 302 "https://example.com/a"
  ∧ r2.1 = Json 200 (StatsBody "ABCDEF" "https://example.com/a" 1001
                       (Some (ValidDate 1801000)) 1)
  ∧ r3 = (gone, initial_store)
  ∧ r4 = (not_found, initial_store).
Proof. vm_compute. repeat split. Qed.

(** The generation loop draws again while the shortcode is taken. *)
Example create_retries :
  let body := mkCreateBody (Some "https://example.com/b") ValidityAbsent None in
  let taken := {[ "ABCDEF" := mkUrlData "https://example.com/a" 0 0 ]} in
  generate_unique 1 example_rand 0 taken = None
  ∧ generate_unique 2 example_rand 0 taken = Some "GHIJKL"
  ∧ (create example_protocol example_base 1 example_rand 0 1000 1001 body
       (mkStore taken {[ "ABCDEF" := ValidDate 5000 ]})).1 = None.
Proof. vm_compute. repeat split. Qed.

Example create_rejects :
  let post body := (create example_protocol example_base 1 example_rand 0 0 0
                      body initial_store).1 in
  post (mkCreateBody None ValidityAbsent None)
    = Some (Json 400 (ErrorBody "Bad Request" "URL is required"))
  ∧ post (mkCreateBody (Some "not-a-url") ValidityAbsent None)
    = Some (Json 400 (ErrorBody "Bad Request" "Invalid URL format"))
  ∧ post (mkCreateBody (Some "https://example.com/") (ValidityInteger 0) None)
    = Some (Json 400 (ErrorBody "Bad Request"
              "Validity must be a positive integer representing minutes"))
  ∧ post (mkCreateBody (Some "https://example.com/") ValidityAbsent (Some "ab"))
    = Some (Json 400 (ErrorBody "Bad Request"
              "Shortcode must be alphanumeric, 3-20 characters long")).
Proof. vm_compute. repeat split. Qed.

(** ** The generator and the validator *)

Lemma length_append (s1 s2 : string) :
  String.length (s1 +:+ s2) = (String.length s1 + String.length s2)%nat.
Proof. induction s1 as [|c s1 IH]; simpl; [done | by rewrite IH]. Qed.

Lemma all_alnum_append (s1 s2 : string) :
  all_alnum (s1 +:+ s2) = all_alnum s1 && all_alnum s2.
Proof.
  induction s1 as [|c s1 IH]; simpl; [done |].
  by rewrite IH, andb_assoc.
Qed.

Lemma from_chars_append (s1 s2 : string) :
  from_chars s1 → from_chars s2 → from_chars (s1 +:+ s2).
Proof. induction s1 as [|c s1 IH]; simpl; intuition. Qed.

(** The alphabet has 62 characters, each of them alphanumeric. *)
Lemma chars_length : String.length chars = 62%nat.
Proof. reflexivity. Qed.

Lemma charAt_chars (k : nat) :
  (k < 62)%nat →
  ∃ c, charAt chars k = String c EmptyString
       ∧ String.get k chars = Some c ∧ is_alnum c = true.
Proof.
  intros Hk. unfold charAt.
  do 62 (destruct k as [|k]; [eexists; split; [reflexivity | split; reflexivity] |]).
  lia.
Qed.

Lemma generateShortcode_loop_spec (rand : nat → nat) (n pos : nat) (result : string) :
  (∀ i, (pos ≤ i < pos + n)%nat → (rand i < 62)%nat) →
  let code := generateShortcode_loop rand pos n result in
  String.length code = (String.length result + n)%nat
  ∧ all_alnum code = all_alnum result
  ∧ (from_chars result → from_chars code).
Proof.
  revert pos result. induction n as [|n IH]; intros pos result Hrand; simpl.
  - split; [lia | done].
  - destruct (charAt_chars (rand pos)) as (c & Hc & Hget & Halnum).
    { apply Hrand. lia. }
    destruct (IH (S pos) (result +:+ charAt chars (rand pos))) as (Hlen & Hal & Hfrom).
    { intros i Hi. apply Hrand. lia. }
    rewrite Hc in Hlen, Hal, Hfrom |- *.
    rewrite Hlen, Hal, length_append, all_alnum_append. simpl.
    rewrite Halnum. split; [lia | split; [by rewrite andb_true_r |]].
    intros Hres. apply Hfrom. apply from_chars_append; [done |].
    simpl. split; [| done]. exists (rand pos). split; [apply Hrand; lia | done].
Qed.

(** C8.  With draws in the range of the alphabet (what [Math.random], a
    number of [0, 1), gives after scaling by 62 and rounding down), the
    shortcode generated with the default length has exactly 6 characters,
    all from the 62 characters of [chars], and passes [isValidShortcode]. *)
Theorem generateShortcode_default_valid (rand : nat → nat) (pos : nat) :
  (∀ i, (pos ≤ i < pos + 6)%nat → (rand i < 62)%nat) →
  String.length chars = 62%nat
  ∧ String.length (generateShortcode rand pos None) = 6%nat
  ∧ from_chars (generateShortcode rand pos None)
  ∧ isValidShortcode (generateShortcode rand pos None) = true.
Proof.
  intros Hrand. unfold generateShortcode. change (default 6%nat None) with 6%nat.
  destruct (generateShortcode_loop_spec rand 6 pos "" Hrand) as (Hlen & Hal & Hfrom).
  remember (generateShortcode_loop rand pos 6 "") as code eqn:Hcode.
  change (String.length code = 6%nat) in Hlen.
  change (all_alnum code = true) in Hal.
  split; [reflexivity |]. split; [done |]. split; [by apply Hfrom |].
  unfold isValidShortcode, test_alnum_plus. rewrite Hlen.
  destruct code; [discriminate Hlen |].
  by rewrite Hal.
Qed.

Lemma generateShortcode_default_valid_witness :
  String.length chars = 62%nat
  ∧ String.length (generateShortcode example_rand 0 None) = 6%nat
  ∧ from_chars (generateShortcode example_rand 0 None)
  ∧ isValidShortcode (generateShortcode example_rand 0 None) = true.
Proof.
  apply (generateShortcode_default_valid example_rand 0).
  intros i _. unfold example_rand. apply Nat.mod_upper_bound. lia.
Defined.

(** ** The periodic cleanup *)

Section Cleanup.

Variable now : Z.

Lemma cleanup_entry_None (st : store) (entry : string * date) (k : string) :
  (urlDatabase st !! k = None → urlDatabase (cleanup_entry now st entry) !! k = None)
  ∧ (expiryDatabase st !! k = None →
     expiryDatabase (cleanup_entry now st entry) !! k = None).
Proof.
  unfold cleanup_entry, evict. destruct (Date_gt _ _); simpl; [| done].
  split; intros H; rewrite lookup_delete; by case_decide.
Qed.

(** What the loop has removed stays removed. *)
Lemma cleanup_loop_None (l : list (string * date)) (st : store) (k : string) :
  (urlDatabase st !! k = None →
   urlDatabase (foldl (cleanup_entry now) st l) !! k = None)
  ∧ (expiryDatabase st !! k = None →
     expiryDatabase (foldl (cleanup_entry now) st l) !! k = None).
Proof.
  revert st. induction l as [|entry l IH]; intros st; simpl; [done |].
  destruct (IH (cleanup_entry now st entry)) as [IHu IHe].
  destruct (cleanup_entry_None st entry k) as [Hu He]. auto.
Qed.

(** An expired entry of the list is removed from both maps. *)
Lemma cleanup_loop_expired (l : list (string * date)) (st : store)
    (k : string) (e : date) :
  (k, e) ∈ l → Date_gt (ValidDate now) e = true →
  urlDatabase (foldl (cleanup_entry now) st l) !! k = None
  ∧ expiryDatabase (foldl (cleanup_entry now) st l) !! k = None.
Proof.
  revert st. induction l as [|entry l IH]; intros st Hin Hgt; simpl.
  - by apply elem_of_nil in Hin.
  - apply elem_of_cons in Hin as [<- | Hin]; [| by apply IH].
    assert (cleanup_entry now st (k, e) = evict k st) as ->.
    { unfold cleanup_entry. cbn [fst snd]. by rewrite Hgt. }
    split; apply cleanup_loop_None; simpl; apply lookup_delete_eq.
Qed.

(** A shortcode without expired entry in the list keeps what it has. *)
Lemma cleanup_loop_live (l : list (string * date)) (st : store) (k : string) :
  (∀ e, (k, e) ∈ l → Date_gt (ValidDate now) e = false) →
  urlDatabase (foldl (cleanup_entry now) st l) !! k = urlDatabase st !! k
  ∧ expiryDatabase (foldl (cleanup_entry now) st l) !! k = expiryDatabase st !! k.
Proof.
  revert st. induction l as [|[k' e'] l IH]; intros st Hlive; simpl; [done |].
  destruct (IH (cleanup_entry now st (k', e'))) as [IHu IHe].
  { intros e He. apply Hlive. by right. }
  rewrite IHu, IHe. unfold cleanup_entry. cbn [fst snd].
  destruct (Date_gt (ValidDate now) e') eqn:Hgt; [| done].
  assert (k' ≠ k) as Hne.
  { intros ->. specialize (Hlive e' ltac:(left)). congruence. }
  simpl. by rewrite !lookup_delete_ne.
Qed.

(** The store after the cleanup, shortcode by shortcode. *)
Lemma cleanup_lookup (st : store) (k : string) :
  let st' := (cleanupExpiredUrls now st).2 in
  match expiryDatabase st !! k with
  | Some e =>
      if Date_gt (ValidDate now) e
      then urlDatabase st' !! k = None ∧ expiryDatabase st' !! k = None
      else urlDatabase st' !! k = urlDatabase st !! k
           ∧ expiryDatabase st' !! k = Some e
  | None =>
      urlDatabase st' !! k = urlDatabase st !! k ∧ expiryDatabase st' !! k = None
  end.
Proof.
  unfold cleanupExpiredUrls. simpl.
  destruct (expiryDatabase st !! k) as [e|] eqn:Hk.
  - destruct (Date_gt (ValidDate now) e) eqn:Hgt.
    + apply cleanup_loop_expired with (e := e); [| done].
      by apply elem_of_map_to_list.
    + rewrite <- Hk. apply cleanup_loop_live.
      intros e' He'. apply elem_of_map_to_list in He'. congruence.
  - rewrite <- Hk. apply cleanup_loop_live.
    intros e' He'. apply elem_of_map_to_list in He'. congruence.
Qed.

End Cleanup.

Lemma store_eq (st1 st2 : store) :
  (∀ k, urlDatabase st1 !! k = urlDatabase st2 !! k) →
  (∀ k, expiryDatabase st1 !! k = expiryDatabase st2 !! k) →
  st1 = st2.
Proof.
  destruct st1, st2. simpl. intros Hu He.
  f_equal; by apply map_eq.
Qed.

(** Without expired entry the cleanup changes nothing. *)
Lemma cleanup_all_live (now : Z) (st : store) :
  (∀ k e, expiryDatabase st !! k = Some e → Date_gt (ValidDate now) e = false) →
  (cleanupExpiredUrls now st).2 = st.
Proof.
  intros Hlive. apply store_eq; intros k;
    pose proof (cleanup_lookup now st k) as H; simpl in H;
    destruct (expiryDatabase st !! k) as [e|] eqn:Hk.
  - rewrite (Hlive k e Hk) in H. apply H.
  - apply H.
  - rewrite (Hlive k e Hk) in H. apply H.
  - apply H.
Qed.

(** After the cleanup no entry is expired at the time of the cleanup. *)
Lemma cleanup_leaves_live (now : Z) (st : store) (k : string) (e : date) :
  expiryDatabase (cleanupExpiredUrls now st).2 !! k = Some e →
  Date_gt (ValidDate now) e = false.
Proof.
  intros Hk. pose proof (cleanup_lookup now st k) as H. simpl in H, Hk.
  destruct (expiryDatabase st !! k) as [e0|] eqn:Hk0.
  - destruct (Date_gt (ValidDate now) e0) eqn:Hgt.
    + destruct H as [_ H]. congruence.
    + destruct H as [_ H]. congruence.
  - destruct H as [_ H]. congruence.
Qed.

(** ** The handlers, case by case *)

Lemma isExpired_lookup (now : Z) (st : store) (code : string) (expiry : date) :
  expiryDatabase st !! code = Some expiry →
  isExpired now st code = Date_gt (ValidDate now) expiry.
Proof. unfold isExpired. by intros ->. Qed.

Lemma getStats_missing (now : Z) (code : string) (st : store) :
  urlDatabase st !! code = None → getStats now code st = (not_found, st).
Proof. unfold getStats. by intros ->. Qed.

Lemma getStats_expired (now : Z) (code : string) (st : store) (d : urlData) :
  urlDatabase st !! code = Some d → isExpired now st code = true →
  getStats now code st = (gone, evict code st).
Proof. unfold getStats. by intros -> ->. Qed.

Lemma getStats_live (now : Z) (code : string) (st : store) (d : urlData) :
  urlDatabase st !! code = Some d → isExpired now st code = false →
  getStats now code st =
    (Json 200 (StatsBody code (originalUrl d) (createdAt d)
                 (expiryDatabase st !! code) (accessCount d)), st).
Proof. unfold getStats. by intros -> ->. Qed.

Lemma reserved_false (code : string) :
  code ≠ "shorturls" → code ≠ "health" →
  String.eqb code "shorturls" || String.eqb code "health" = false.
Proof.
  intros H1 H2. apply orb_false_intro; by apply String.eqb_neq.
Qed.

(** [resolve] without the [await]s. *)
Lemma resolve_unfold (now : Z) (code : string) (st : store) :
  resolve now code st =
    if String.eqb code "shorturls" || String.eqb code "health" then
      (route_not_found, st)
    else
      match urlDatabase st !! code with
      | None => (not_found, st)
      | Some d =>
          if isExpired now st code then (gone, evict code st)
          else (Redirect 302 (originalUrl d),
                mkStore (<[code := accessed d]> (urlDatabase st))
                        (expiryDatabase st))
      end.
Proof.
  unfold resolve, resolve_async. destruct (_ || _); [done |].
  destruct (urlDatabase st !! code); [| done].
  by destruct (isExpired now st code).
Qed.

Lemma resolve_reserved (now : Z) (code : string) (st : store) :
  code = "shorturls" ∨ code = "health" →
  resolve now code st = (route_not_found, st).
Proof. by intros [-> | ->]. Qed.

Lemma resolve_missing (now : Z) (code : string) (st : store) :
  code ≠ "shorturls" → code ≠ "health" →
  urlDatabase st !! code = None → resolve now code st = (not_found, st).
Proof.
  intros H1 H2 Hd. rewrite resolve_unfold. by rewrite reserved_false, Hd.
Qed.

Lemma resolve_expired (now : Z) (code : string) (st : store) (d : urlData) :
  code ≠ "shorturls" → code ≠ "health" →
  urlDatabase st !! code = Some d → isExpired now st code = true →
  resolve now code st = (gone, evict code st).
Proof.
  intros H1 H2 Hd He. rewrite resolve_unfold. by rewrite reserved_false, Hd, He.
Qed.

Lemma resolve_live (now : Z) (code : string) (st : store) (d : urlData) :
  code ≠ "shorturls" → code ≠ "health" →
  urlDatabase st !! code = Some d → isExpired now st code = false →
  resolve now code st =
    (Redirect 302 (originalUrl d),
     mkStore (<[code := accessed d]> (urlDatabase st)) (expiryDatabase st)).
Proof.
  intros H1 H2 Hd He. rewrite resolve_unfold. by rewrite reserved_false, Hd, He.
Qed.

(** A redirection is the answer to a shortcode that is not a route name
    and has an entry that is not expired, and to nothing else. *)
Lemma resolve_redirect_inv (now : Z) (code : string) (st st' : store) (r : response) :
  resolve now code st = (r, st') → is_redirect r = true →
  ∃ d, urlDatabase st !! code = Some d
       ∧ isExpired now st code = false
       ∧ code ≠ "shorturls" ∧ code ≠ "health"
       ∧ r = Redirect 302 (originalUrl d)
       ∧ st' = mkStore (<[code := accessed d]> (urlDatabase st)) (expiryDatabase st).
Proof.
  rewrite resolve_unfold. intros Hr Hred.
  destruct (String.eqb code "shorturls") eqn:E1; simpl in Hr.
  { inversion Hr; subst. discriminate. }
  destruct (String.eqb code "health") eqn:E2; simpl in Hr.
  { inversion Hr; subst. discriminate. }
  apply String.eqb_neq in E1, E2.
  destruct (urlDatabase st !! code) as [d|] eqn:Hd.
  2: { inversion Hr; subst. discriminate. }
  destruct (isExpired now st code) eqn:He.
  { inversion Hr; subst. discriminate. }
  inversion Hr; subst. exists d. auto 10.
Qed.

Section Create.

Variable URL_protocol : string → option string.
Variable BASE_URL : string.

Lemma isValidShortcode_truthy (code : string) :
  isValidShortcode code = true → truthy (Some code) = Some code.
Proof. by destruct code. Qed.

(** [create] with a well-formed URL, a positive validity and a well-formed
    requested shortcode comes down to the test of [urlDatabase] and the
    insertion. *)
Lemma create_requested (fuel : nat) (rand : nat → nat) (pos : nat)
    (now created : Z) (body : create_body) (st : store)
    (u code : string) (v : Z) :
  url body = Some u → u ≠ "" → isValidUrl URL_protocol u = true →
  validity_or_default (validity body) = ValidityInteger v → 0 < v →
  shortcode body = Some code → isValidShortcode code = true →
  create URL_protocol BASE_URL fuel rand pos now created body st =
    if decide (is_Some (urlDatabase st !! code)) then (Some conflict, st)
    else (Some (create_store BASE_URL now created u v code st).1,
          (create_store BASE_URL now created u v code st).2).
Proof.
  intros Hu Hne Hvalid Hv Hpos Hc Hcode. unfold create.
  rewrite Hu, Hc, Hv, (isValidShortcode_truthy code Hcode). simpl.
  destruct (String.eqb_spec u ""); [done |].
  rewrite Hvalid, Hcode. simpl.
  destruct (Z.leb_spec v 0); [lia | done].
Qed.

Lemma create_store_in_range (now created : Z) (u code : string) (v : Z) (st : store) :
  Z.abs (now + v * 60 * 1000) ≤ MAX_TIME →
  create_store BASE_URL now created u v code st =
    (Json 201 (CreatedBody (BASE_URL +:+ "/" +:+ code) (now + v * 60 * 1000)),
     mkStore (<[code := mkUrlData u created 0]> (urlDatabase st))
             (<[code := ValidDate (now + v * 60 * 1000)]> (expiryDatabase st))).
Proof.
  intros Hrange. unfold create_store, TimeClip.
  by destruct (Z.leb_spec (Z.abs (now + v * 60 * 1000)) MAX_TIME); [| lia].
Qed.

(** With a validity so large that the expiry is not a date, the entry is
    stored with an invalid expiry before the exception of [toISOString]
    turns the answer into a 500; no clock is after an invalid date. *)
Remark create_store_out_of_range (now created : Z) (u code : string) (v : Z) (st : store) :
  MAX_TIME < Z.abs (now + v * 60 * 1000) →
  let r := create_store BASE_URL now created u v code st in
  r.1 = Json 500 (ErrorBody "Internal Server Error"
                    "An error occurred while creating the short URL")
  ∧ urlDatabase r.2 !! code = Some (mkUrlData u created 0)
  ∧ expiryDatabase r.2 !! code = Some InvalidDate
  ∧ ∀ t, isExpired t r.2 code = false.
Proof.
  intros Hrange. unfold create_store, TimeClip.
  destruct (Z.leb_spec (Z.abs (now + v * 60 * 1000)) MAX_TIME); [lia |].
  simpl. rewrite !lookup_insert_eq. repeat split.
  intros t. unfold isExpired. simpl. by rewrite lookup_insert_eq.
Qed.

End Create.

(** ** Creation under a requested shortcode *)

Section CreateClaims.

Variable URL_protocol : string → option string.
Variable BASE_URL : string.

(** C1, as the code has it.  For a well-formed URL, a positive integer
    validity and a well-formed requested shortcode: [create] answers with
    the conflict exactly when [urlDatabase] has an entry under the
    shortcode, expired or not, and leaves the store as it is then; when
    [urlDatabase] has no entry under the shortcode, it inserts the new
    entry, with a count of 0, under the shortcode in both maps, and it
    answers 201 with the short link and the expiry whenever the expiry,
    the clock plus the validity in minutes, is a date. *)
Theorem create_requested_code (fuel : nat) (rand : nat → nat) (pos : nat)
    (now created : Z) (body : create_body) (st : store)
    (u code : string) (v : Z) :
  url body = Some u → u ≠ "" → isValidUrl URL_protocol u = true →
  validity_or_default (validity body) = ValidityInteger v → 0 < v →
  shortcode body = Some code → isValidShortcode code = true →
  let r := create URL_protocol BASE_URL fuel rand pos now created body st in
  (r.1 = Some conflict ↔ is_Some (urlDatabase st !! code))
  ∧ (is_Some (urlDatabase st !! code) → r = (Some conflict, st))
  ∧ (urlDatabase st !! code = None →
     r.2 = mkStore (<[code := mkUrlData u created 0]> (urlDatabase st))
                   (<[code := TimeClip (now + v * 60 * 1000)]> (expiryDatabase st))
     ∧ (Z.abs (now + v * 60 * 1000) ≤ MAX_TIME →
        r = (Some (Json 201 (CreatedBody (BASE_URL +:+ "/" +:+ code)
                               (now + v * 60 * 1000))),
             mkStore (<[code := mkUrlData u created 0]> (urlDatabase st))
                     (<[code := ValidDate (now + v * 60 * 1000)]>
                        (expiryDatabase st))))).
Proof.
  intros Hu Hne Hvalid Hv Hpos Hc Hcode r. subst r.
  rewrite (create_requested URL_protocol BASE_URL fuel rand pos now created
             body st u code v) by done.
  destruct (decide (is_Some (urlDatabase st !! code))) as [Hsome | Hnone]; simpl.
  - split; [done |]. split; [done |]. intros Hn. rewrite Hn in Hsome.
    by destruct Hsome.
  - split; [| split; [done |]].
    + split; [| done]. unfold create_store.
      destruct (TimeClip (now + v * 60 * 1000)); simpl; discriminate.
    + intros _. split.
      * unfold create_store. by destruct (TimeClip (now + v * 60 * 1000)).
      * intros Hrange. by rewrite create_store_in_range.
Qed.

End CreateClaims.

Lemma create_requested_code_witness :
  create example_protocol example_base 0 example_rand 0 120000 120000
    abc_body abc_store
  = (Some conflict, abc_store)
  ∧ (create example_protocol example_base 0 example_rand 0 0 5 abc_body
       initial_store).2
    = mkStore (<["abc" := mkUrlData "https://example.com/" 5 0]> ∅)
              (<["abc" := TimeClip (0 + 1 * 60 * 1000)]> ∅)
  ∧ create example_protocol example_base 0 example_rand 0 0 5 abc_body initial_store
    = (Some (Json 201 (CreatedBody "http://localhost:3000/abc" 60000)),
       mkStore (<["abc" := mkUrlData "https://example.com/" 5 0]> ∅)
               (<["abc" := ValidDate 60000]> ∅)).
Proof.
  destruct (create_requested_code example_protocol example_base 0 example_rand 0
              120000 120000 abc_body abc_store "https://example.com/" "abc" 1)
    as (_ & Hconflict & _); try reflexivity; try discriminate.
  destruct (create_requested_code example_protocol example_base 0 example_rand 0
              0 5 abc_body initial_store "https://example.com/" "abc" 1)
    as (_ & _ & Hfree); try reflexivity; try discriminate.
  destruct (Hfree eq_refl) as [Hstore Hcreated].
  split; [apply Hconflict; by eexists |].
  split; [exact Hstore | apply Hcreated; discriminate].
Defined.

(** C1 at an expired entry: the entry under "abc" expired at 60000 ms; at
    120000 ms a creation that asks for "abc" gets the conflict and the
    store keeps the stale entry. *)
Lemma create_stale_code_conflict :
  urlDatabase abc_store !! "abc" = Some (mkUrlData "https://old.example/" 0 0)
  ∧ expiryDatabase abc_store !! "abc" = Some (ValidDate 60000)
  ∧ isExpired 120000 abc_store "abc" = true
  ∧ create example_protocol example_base 0 example_rand 0 120000 120000
      abc_body abc_store
    = (Some conflict, abc_store).
Proof. vm_compute. repeat split. Qed.

(** ** The cleanup: what it returns and what it evicts *)

(** C2, as the code has it.  [cleanupExpiredUrls] returns no value; it
    removes from both maps exactly the shortcodes whose expiry is strictly
    before the clock and leaves the others as they are; on a store without
    expired entry it changes nothing, and so does a second cleanup at the
    same clock reading. *)
Theorem cleanupExpiredUrls_evicts_expired (now : Z) (st : store) :
  let r := cleanupExpiredUrls now st in
  r.1 = Undefined
  ∧ (∀ k e, expiryDatabase st !! k = Some e →
       Date_gt (ValidDate now) e = true →
       urlDatabase r.2 !! k = None ∧ expiryDatabase r.2 !! k = None)
  ∧ (∀ k, (∀ e, expiryDatabase st !! k = Some e →
             Date_gt (ValidDate now) e = false) →
       urlDatabase r.2 !! k = urlDatabase st !! k
       ∧ expiryDatabase r.2 !! k = expiryDatabase st !! k)
  ∧ ((∀ k e, expiryDatabase st !! k = Some e →
        Date_gt (ValidDate now) e = false) → r.2 = st)
  ∧ (cleanupExpiredUrls now r.2).2 = r.2.
Proof.
  intros r. subst r. split; [done |].
  split; [| split; [| split]].
  - intros k e Hk Hgt. pose proof (cleanup_lookup now st k) as H. simpl in H.
    by rewrite Hk, Hgt in H.
  - intros k Hlive. pose proof (cleanup_lookup now st k) as H. simpl in H.
    destruct (expiryDatabase st !! k) as [e|] eqn:Hk.
    + by rewrite (Hlive e eq_refl) in H.
    + done.
  - apply cleanup_all_live.
  - apply cleanup_all_live. intros k e. apply cleanup_leaves_live.
Qed.

(** C2 at a store with one expired and one live entry: one entry is
    evicted, and the value returned is [undefined], not the count 1; on the
    empty store it is [undefined], not 0. *)
Lemma cleanupExpiredUrls_returns_undefined :
  size (urlDatabase mixed_store) = 2%nat
  ∧ size (urlDatabase (cleanupExpiredUrls 120000 mixed_store).2) = 1%nat
  ∧ (cleanupExpiredUrls 120000 mixed_store).1 = Undefined
  ∧ (cleanupExpiredUrls 120000 mixed_store).1 ≠ Number 1
  ∧ (cleanupExpiredUrls 120000 initial_store).1 ≠ Number 0.
Proof. vm_compute. repeat split; discriminate. Qed.

(** ** Expiry on access *)

Lemma evict_lookup (code : string) (st : store) :
  urlDatabase (evict code st) !! code = None
  ∧ expiryDatabase (evict code st) !! code = None.
Proof. unfold evict. simpl. by rewrite !lookup_delete_eq. Qed.

(** C3, as the code has it.  When the entry under a shortcode is past its
    expiry, [getStats] answers that it is gone and removes the shortcode
    from both maps; [resolve] does the same for every shortcode but the two
    route names; after the removal [getStats] answers that the shortcode is
    not found. *)
Theorem expired_entry_evicted (now : Z) (code : string) (st : store)
    (d : urlData) (expiry : date) :
  urlDatabase st !! code = Some d →
  expiryDatabase st !! code = Some expiry →
  Date_gt (ValidDate now) expiry = true →
  getStats now code st = (gone, evict code st)
  ∧ (code ≠ "shorturls" → code ≠ "health" →
     resolve now code st = (gone, evict code st))
  ∧ urlDatabase (evict code st) !! code = None
  ∧ expiryDatabase (evict code st) !! code = None
  ∧ (∀ now', getStats now' code (evict code st) = (not_found, evict code st)).
Proof.
  intros Hd He Hgt.
  assert (isExpired now st code = true) as Hexp.
  { by rewrite (isExpired_lookup now st code expiry He). }
  destruct (evict_lookup code st) as [Hu Hx].
  split; [by apply getStats_expired with d |].
  split; [intros; by apply resolve_expired with d |].
  split; [done |]. split; [done |].
  intros now'. by apply getStats_missing.
Qed.

Lemma expired_entry_evicted_witness :
  getStats 120000 "abc" abc_store = (gone, evict "abc" abc_store)
  ∧ resolve 120000 "abc" abc_store = (gone, evict "abc" abc_store)
  ∧ getStats 120001 "abc" (evict "abc" abc_store)
    = (not_found, evict "abc" abc_store).
Proof.
  destruct (expired_entry_evicted 120000 "abc" abc_store
              (mkUrlData "https://old.example/" 0 0) (ValidDate 60000))
    as (Hstats & Hresolve & _ & _ & Hafter); try reflexivity.
  split; [exact Hstats |].
  split; [apply Hresolve; discriminate | apply Hafter].
Defined.

(** C3 at the route name "shorturls": its entry expired at 60000 ms; at
    120000 ms [resolve] answers that the route is not found and leaves the
    entry in the store, where a following [getStats] finds it and answers
    that it is gone. *)
Lemma resolve_expired_route_name :
  urlDatabase shorturls_store !! "shorturls"
    = Some (mkUrlData "https://example.com/" 0 0)
  ∧ isExpired 120000 shorturls_store "shorturls" = true
  ∧ resolve 120000 "shorturls" shorturls_store = (route_not_found, shorturls_store)
  ∧ resolve 120000 "shorturls" shorturls_store ≠ (gone, evict "shorturls" shorturls_store)
  ∧ getStats 120000 "shorturls" (resolve 120000 "shorturls" shorturls_store).2
    = (gone, initial_store)
  ∧ (getStats 120000 "shorturls" (resolve 120000 "shorturls" shorturls_store).2).1
    ≠ not_found.
Proof. vm_compute. repeat split; discriminate. Qed.

(** ** The boundary of expiry *)

Lemma Date_gt_valid (now e : Z) : Date_gt (ValidDate now) (ValidDate e) = (e <? now).
Proof. reflexivity. Qed.

(** C6, as the code has it.  An entry with the expiry [e] is expired when
    and only when the clock is strictly after [e].  Up to [e] included
    [getStats] returns it, and so does [resolve] for every shortcode but
    the two route names; after [e] [getStats] answers that it is gone and
    [resolve] does not redirect. *)
Theorem expiry_boundary (now e : Z) (code : string) (st : store) (d : urlData) :
  urlDatabase st !! code = Some d →
  expiryDatabase st !! code = Some (ValidDate e) →
  (isExpired now st code = true ↔ e < now)
  ∧ (now ≤ e →
     getStats now code st =
       (Json 200 (StatsBody code (originalUrl d) (createdAt d)
                    (Some (ValidDate e)) (accessCount d)), st)
     ∧ (code ≠ "shorturls" → code ≠ "health" →
        resolve now code st =
          (Redirect 302 (originalUrl d),
           mkStore (<[code := accessed d]> (urlDatabase st)) (expiryDatabase st))))
  ∧ (e < now →
     getStats now code st = (gone, evict code st)
     ∧ is_redirect (resolve now code st).1 = false).
Proof.
  intros Hd He.
  pose proof (isExpired_lookup now st code _ He) as Hexp.
  rewrite Date_gt_valid in Hexp.
  split; [rewrite Hexp; apply Z.ltb_lt |].
  split.
  - intros Hle. assert (isExpired now st code = false) as Hlive.
    { rewrite Hexp. apply Z.ltb_ge. lia. }
    split.
    + rewrite (getStats_live now code st d Hd Hlive). by rewrite He.
    + intros H1 H2. by apply resolve_live.
  - intros Hlt. assert (isExpired now st code = true) as Hgone.
    { rewrite Hexp. by apply Z.ltb_lt. }
    split; [by apply getStats_expired with d |].
    destruct (resolve now code st) as [r st'] eqn:Hr. simpl.
    destruct (is_redirect r) eqn:Hred; [| done].
    destruct (resolve_redirect_inv now code st st' r Hr Hred) as (d' & _ & Hlive & _).
    congruence.
Qed.

Lemma expiry_boundary_witness :
  getStats 60000 "abc" abc_store
  = (Json 200 (StatsBody "abc" "https://old.example/" 0 (Some (ValidDate 60000)) 0),
     abc_store)
  ∧ getStats 60001 "abc" abc_store = (gone, evict "abc" abc_store).
Proof.
  destruct (expiry_boundary 60000 60000 "abc" abc_store
              (mkUrlData "https://old.example/" 0 0) eq_refl eq_refl)
    as (_ & Hlive & _).
  destruct (expiry_boundary 60001 60000 "abc" abc_store
              (mkUrlData "https://old.example/" 0 0) eq_refl eq_refl)
    as (_ & _ & Hgone).
  split; [apply Hlive; lia | apply Hgone; lia].
Defined.

(** C6 at the route name "shorturls": at 60000 ms, the instant of its
    expiry, the entry is not expired and [getStats] returns it, but
    [resolve] answers that the route is not found. *)
Lemma resolve_live_route_name :
  urlDatabase shorturls_store !! "shorturls"
    = Some (mkUrlData "https://example.com/" 0 0)
  ∧ expiryDatabase shorturls_store !! "shorturls" = Some (ValidDate 60000)
  ∧ isExpired 60000 shorturls_store "shorturls" = false
  ∧ resolve 60000 "shorturls" shorturls_store = (route_not_found, shorturls_store)
  ∧ is_redirect (resolve 60000 "shorturls" shorturls_store).1 = false.
Proof. vm_compute. repeat split. Qed.

(** ** Counting the accesses *)

(** [n] successful resolutions in a row add [n] to the count of the entry
    and touch nothing else. *)
Lemma resolve_seq_redirects (code : string) (nows : list Z) :
  ∀ (st st' : store) (d : urlData) (rs : list response),
    urlDatabase st !! code = Some d →
    resolve_seq nows code st = (rs, st') →
    forallb is_redirect rs = true →
    rs = replicate (List.length nows) (Redirect 302 (originalUrl d))
    ∧ urlDatabase st' !! code =
        Some (mkUrlData (originalUrl d) (createdAt d)
                (accessCount d + Z.of_nat (List.length nows)))
    ∧ expiryDatabase st' = expiryDatabase st.
Proof.
  induction nows as [|now nows IH]; intros st st' d rs Hd Hrun Hall.
  - simpl in Hrun. inversion Hrun; subst. simpl.
    split; [done |]. split; [| done].
    rewrite Hd. f_equal. destruct d. simpl. f_equal. lia.
  - simpl in Hrun.
    destruct (resolve now code st) as [r st1] eqn:Hr. simpl in Hrun.
    destruct (resolve_seq nows code st1) as [rs1 st2] eqn:Hrs.
    simpl in Hrun. injection Hrun as Hrs_eq Hst_eq. subst rs st'.
    simpl in Hall. apply andb_true_iff in Hall as [Hred Hall].
    destruct (resolve_redirect_inv now code st st1 r Hr Hred)
      as (d0 & Hd0 & _ & _ & _ & Hr_eq & Hst1).
    assert (d0 = d) as -> by congruence.
    assert (urlDatabase st1 !! code = Some (accessed d)) as Hd1.
    { rewrite Hst1. simpl. apply lookup_insert_eq. }
    destruct (IH st1 st2 (accessed d) rs1 Hd1 Hrs Hall) as (Hrs1 & Hcount & Hexp).
    rewrite Hr_eq, Hrs1, Hcount, Hexp, Hst1. simpl.
    split; [done |]. split; [| done].
    do 2 f_equal. lia.
Qed.

(** C4.  For an entry [d] under a shortcode: a successful [resolve]
    redirects to the stored URL as it is and leaves the entry with its
    count increased by exactly 1; and when the entry is fresh, after any
    number of successful resolutions in sequence a [getStats] of the entry
    reports that number as its count. *)
Theorem resolve_counts_accesses (code : string) (st : store) (d : urlData) :
  urlDatabase st !! code = Some d →
  (∀ now r st',
     resolve now code st = (r, st') → is_redirect r = true →
     r = Redirect 302 (originalUrl d)
     ∧ urlDatabase st' !! code =
         Some (mkUrlData (originalUrl d) (createdAt d) (accessCount d + 1)))
  ∧ (∀ nows rs st' t,
       accessCount d = 0 →
       resolve_seq nows code st = (rs, st') →
       forallb is_redirect rs = true →
       isExpired t st' code = false →
       getStats t code st' =
         (Json 200 (StatsBody code (originalUrl d) (createdAt d)
                      (expiryDatabase st !! code) (Z.of_nat (List.length nows))),
          st')).
Proof.
  intros Hd. split.
  - intros now r st' Hr Hred.
    destruct (resolve_redirect_inv now code st st' r Hr Hred)
      as (d0 & Hd0 & _ & _ & _ & -> & ->).
    assert (d0 = d) as -> by congruence.
    split; [done |]. simpl. by rewrite lookup_insert_eq.
  - intros nows rs st' t Hfresh Hrun Hall Hlive.
    destruct (resolve_seq_redirects code nows st st' d rs Hd Hrun Hall)
      as (_ & Hcount & Hexp).
    rewrite (getStats_live t code st' _ Hcount Hlive). simpl.
    by rewrite Hexp, Hfresh.
Qed.

Lemma resolve_counts_accesses_witness :
  getStats 50000 "abc" (resolve_seq [10; 20; 30] "abc" abc_store).2
  = (Json 200 (StatsBody "abc" "https://old.example/" 0 (Some (ValidDate 60000)) 3),
     (resolve_seq [10; 20; 30] "abc" abc_store).2).
Proof.
  apply (proj2 (resolve_counts_accesses "abc" abc_store
                  (mkUrlData "https://old.example/" 0 0) eq_refl)
           [10; 20; 30] (resolve_seq [10; 20; 30] "abc" abc_store).1);
    reflexivity.
Defined.

(** ** The frame of [getStats] *)

Lemma getStats_store (now : Z) (code : string) (st : store) :
  (getStats now code st).2 = st ∨ (getStats now code st).2 = evict code st.
Proof.
  unfold getStats. destruct (urlDatabase st !! code); [| by left].
  destruct (isExpired now st code); [by right | by left].
Qed.

Lemma getStats_subseteq (now : Z) (code : string) (st : store) :
  urlDatabase (getStats now code st).2 ⊆ urlDatabase st.
Proof.
  destruct (getStats_store now code st) as [-> | ->]; [done |].
  apply delete_subseteq.
Qed.

Lemma getStats_seq_subseteq (calls : list (Z * string)) (st : store) :
  urlDatabase (getStats_seq calls st) ⊆ urlDatabase st.
Proof.
  revert st. induction calls as [|[now code] calls IH]; intros st; [done |].
  unfold getStats_seq. simpl. etrans; [apply IH |]. apply getStats_subseteq.
Qed.

(** C7.  After any sequence of [getStats] calls, on any shortcodes and at
    any times, successful or not, every entry of the store is an entry the
    store had before, with the same count; a call whose entry is not
    expired leaves the whole store as it is. *)
Theorem getStats_keeps_accessCount (calls : list (Z * string)) (st : store) :
  (∀ c d', urlDatabase (getStats_seq calls st) !! c = Some d' →
     ∃ d, urlDatabase st !! c = Some d ∧ accessCount d' = accessCount d)
  ∧ (∀ now code c d',
       urlDatabase (getStats now code st).2 !! c = Some d' →
       ∃ d, urlDatabase st !! c = Some d ∧ accessCount d' = accessCount d)
  ∧ (∀ now code,
       isExpired now st code = false → (getStats now code st).2 = st).
Proof.
  split; [| split].
  - intros c d' Hc. exists d'. split; [| done].
    by apply (lookup_weaken _ _ _ _ Hc), getStats_seq_subseteq.
  - intros now code c d' Hc. exists d'. split; [| done].
    by apply (lookup_weaken _ _ _ _ Hc), getStats_subseteq.
  - intros now code Hlive. unfold getStats.
    destruct (urlDatabase st !! code); [| done]. by rewrite Hlive.
Qed.

(** ** The two maps hold the same shortcodes *)

Lemma store_consistent_lookup (st : store) :
  store_consistent st ↔
  ∀ k, is_Some (urlDatabase st !! k) ↔ is_Some (expiryDatabase st !! k).
Proof.
  unfold store_consistent. rewrite set_eq.
  by setoid_rewrite elem_of_dom.
Qed.

Lemma initial_store_consistent : store_consistent initial_store.
Proof. reflexivity. Qed.

Lemma evict_consistent (code : string) (st : store) :
  store_consistent st → store_consistent (evict code st).
Proof.
  unfold store_consistent, evict. simpl. intros H.
  by rewrite !dom_delete_L, H.
Qed.

Lemma insert_both_consistent (code : string) (d : urlData) (e : date) (st : store) :
  store_consistent st →
  store_consistent (mkStore (<[code := d]> (urlDatabase st))
                            (<[code := e]> (expiryDatabase st))).
Proof.
  unfold store_consistent. simpl. intros H.
  by rewrite !dom_insert_L, H.
Qed.

Lemma update_url_consistent (code : string) (d : urlData) (st : store) :
  is_Some (urlDatabase st !! code) →
  store_consistent st →
  store_consistent (mkStore (<[code := d]> (urlDatabase st)) (expiryDatabase st)).
Proof.
  unfold store_consistent. simpl. intros Hsome Hdom.
  rewrite dom_insert_L, <- Hdom. apply elem_of_dom in Hsome.
  apply set_eq. intros k. rewrite elem_of_union, elem_of_singleton.
  split; [intros [-> | Hk]; done | by right].
Qed.

Lemma getStats_consistent (now : Z) (code : string) (st : store) :
  store_consistent st → store_consistent (getStats now code st).2.
Proof.
  intros H. destruct (getStats_store now code st) as [-> | ->]; [done |].
  by apply evict_consistent.
Qed.

Lemma resolve_consistent (now : Z) (code : string) (st : store) :
  store_consistent st → store_consistent (resolve now code st).2.
Proof.
  intros H. rewrite resolve_unfold. destruct (_ || _); [done |].
  destruct (urlDatabase st !! code) as [d|] eqn:Hd; [| done].
  destruct (isExpired now st code); simpl.
  - by apply evict_consistent.
  - apply update_url_consistent; [by rewrite Hd | done].
Qed.

Lemma cleanup_consistent (now : Z) (st : store) :
  store_consistent st → store_consistent (cleanupExpiredUrls now st).2.
Proof.
  rewrite !store_consistent_lookup. intros H k.
  pose proof (cleanup_lookup now st k) as Hk. simpl in Hk. specialize (H k).
  destruct (expiryDatabase st !! k) as [e|] eqn:He.
  - destruct (Date_gt (ValidDate now) e); destruct Hk as [Hu Hx]; simpl;
      rewrite Hu, Hx; [done |]. split; [by eauto | intros _; by apply H].
  - destruct Hk as [Hu Hx]. simpl. by rewrite Hu, Hx.
Qed.

Section Invariant.

Variable URL_protocol : string → option string.
Variable BASE_URL : string.

Lemma create_store_consistent (now created : Z) (u code : string) (v : Z) (st : store) :
  store_consistent st →
  store_consistent (create_store BASE_URL now created u v code st).2.
Proof.
  intros H. unfold create_store.
  destruct (TimeClip _); simpl; by apply insert_both_consistent.
Qed.

Lemma create_consistent (fuel : nat) (rand : nat → nat) (pos : nat)
    (now created : Z) (body : create_body) (st : store) :
  store_consistent st →
  store_consistent
    (create URL_protocol BASE_URL fuel rand pos now created body st).2.
Proof.
  intros H. unfold create.
  destruct (truthy (url body)) as [u|]; [| done].
  destruct (negb _); [done |].
  destruct (validity_or_default _) as [|v|]; [done | | done].
  destruct (v <=? 0); [done |].
  destruct (truthy (shortcode body)) as [code|].
  - destruct (negb _); [done |]. case_decide; [done |].
    by apply create_store_consistent.
  - destruct (generate_unique _ _ _ _); [| done].
    by apply create_store_consistent.
Qed.

(** C9.  Each of the four operations, whatever its arguments and its
    outcome, takes a store whose two maps hold the same shortcodes to a
    store whose two maps hold the same shortcodes. *)
Theorem handle_keeps_maps_aligned (r : request) (st : store) :
  store_consistent st →
  store_consistent (handle URL_protocol BASE_URL r st).
Proof.
  intros H. destruct r; simpl.
  - by apply create_consistent.
  - by apply getStats_consistent.
  - by apply resolve_consistent.
  - by apply cleanup_consistent.
Qed.

(** Every store the service can reach from its start is consistent. *)
Corollary run_consistent (rs : list request) :
  store_consistent (run URL_protocol BASE_URL rs initial_store).
Proof.
  unfold run. generalize initial_store_consistent.
  generalize initial_store. induction rs as [|r rs IH]; intros st H; [done |].
  simpl. apply IH. destruct r; simpl.
  - by apply create_consistent.
  - by apply getStats_consistent.
  - by apply resolve_consistent.
  - by apply cleanup_consistent.
Qed.

End Invariant.

Lemma handle_keeps_maps_aligned_witness :
  store_consistent
    (handle example_protocol example_base (CleanupTimer 120000) mixed_store).
Proof.
  apply (handle_keeps_maps_aligned example_protocol example_base
           (CleanupTimer 120000) mixed_store).
  vm_compute. reflexivity.
Defined.

(** ** The names of the routes as shortcodes *)

Lemma resolve_seq_reserved (code : string) (nows : list Z) (st : store) :
  code = "shorturls" ∨ code = "health" →
  resolve_seq nows code st = (replicate (List.length nows) route_not_found, st).
Proof.
  intros Hcode. induction nows as [|now nows IH]; simpl; [done |].
  rewrite (resolve_reserved now code st Hcode). simpl. by rewrite IH.
Qed.

Section RouteNames.

Variable URL_protocol : string → option string.
Variable BASE_URL : string.

(** C10.  "shorturls" and "health" are well-formed shortcodes; a creation
    that asks for one of them while it is free, with a well-formed URL and
    a positive validity whose expiry is a date, answers 201 and inserts an
    entry that is not expired at the time of the creation; and [resolve] of
    the shortcode, in any store and at any time, answers that the route is
    not found and leaves the store, and so the count of the entry and the
    entry itself, as they are, however often it is called. *)
Theorem route_names_never_resolved (code : string) :
  code = "shorturls" ∨ code = "health" →
  isValidShortcode code = true
  ∧ (∀ fuel rand pos now created body st u v,
       url body = Some u → u ≠ "" → isValidUrl URL_protocol u = true →
       validity_or_default (validity body) = ValidityInteger v → 0 < v →
       Z.abs (now + v * 60 * 1000) ≤ MAX_TIME →
       shortcode body = Some code →
       urlDatabase st !! code = None →
       let r := create URL_protocol BASE_URL fuel rand pos now created body st in
       r.1 = Some (Json 201 (CreatedBody (BASE_URL +:+ "/" +:+ code)
                               (now + v * 60 * 1000)))
       ∧ urlDatabase r.2 !! code = Some (mkUrlData u created 0)
       ∧ isExpired now r.2 code = false)
  ∧ (∀ now st, resolve now code st = (route_not_found, st))
  ∧ (∀ nows st,
       resolve_seq nows code st
       = (replicate (List.length nows) route_not_found, st)).
Proof.
  intros Hcode.
  assert (isValidShortcode code = true) as Hvalid.
  { by destruct Hcode as [-> | ->]. }
  split; [done |]. split; [| split].
  - intros fuel rand pos now created body st u v Hu Hne Hurl Hv Hpos Hrange Hc Hfree r.
    subst r.
    rewrite (create_requested URL_protocol BASE_URL fuel rand pos now created
               body st u code v) by done.
    rewrite create_store_in_range by done.
    rewrite decide_False by (rewrite Hfree; by intros [? ?]). simpl.
    split; [done |]. split; [apply lookup_insert_eq |].
    unfold isExpired. simpl. rewrite lookup_insert_eq, Date_gt_valid.
    apply Z.ltb_ge. lia.
  - intros now st. by apply resolve_reserved.
  - intros nows st. by apply resolve_seq_reserved.
Qed.

End RouteNames.

Lemma route_names_never_resolved_witness :
  let body := mkCreateBody (Some "https://example.com/") (ValidityInteger 1)
                (Some "shorturls") in
  let r := create example_protocol example_base 0 example_rand 0 0 5 body
             initial_store in
  isValidShortcode "shorturls" = true
  ∧ r.1 = Some (Json 201 (CreatedBody "http://localhost:3000/shorturls" 60000))
  ∧ urlDatabase r.2 !! "shorturls" = Some (mkUrlData "https://example.com/" 5 0)
  ∧ isExpired 0 r.2 "shorturls" = false
  ∧ resolve 10 "shorturls" r.2 = (route_not_found, r.2)
  ∧ resolve_seq [10; 20; 30] "shorturls" r.2 = (replicate 3 route_not_found, r.2).
Proof.
  intros body r.
  destruct (route_names_never_resolved example_protocol example_base "shorturls")
    as (Hvalid & Hcreate & Hresolve & Hseq).
  { left. reflexivity. }
  destruct (Hcreate 0%nat example_rand 0%nat 0 5 body initial_store
              "https://example.com/" 1)
    as (Hresponse & Hentry & Hlive); try reflexivity; try discriminate.
  split; [exact Hvalid |]. split; [exact Hresponse |]. split; [exact Hentry |].
  split; [exact Hlive |]. split; [apply Hresolve | apply (Hseq [10; 20; 30])].
Defined.

(** ** Requests in flight together *)

Lemma sum_list_with_insert {A : Type} (f : A → nat) (l : list A) (i : nat) (x y : A) :
  l !! i = Some x →
  (sum_list_with f (<[i := y]> l) + f x = sum_list_with f l + f y)%nat.
Proof.
  revert i. induction l as [|a l IH]; intros [|i] Hi; simplify_eq/=; [lia |].
  specialize (IH i Hi). lia.
Qed.

Lemma sum_list_with_replicate {A : Type} (f : A → nat) (n : nat) (x : A) :
  sum_list_with f (replicate n x) = (n * f x)%nat.
Proof. induction n as [|n IH]; simpl; [done | rewrite IH; lia]. Qed.

Lemma unfinished_lookup (tasks : list task) :
  forallb finished tasks = false →
  ∃ i t, tasks !! i = Some t ∧ finished t = false.
Proof.
  induction tasks as [|t tasks IH]; simpl; [done |].
  destruct (finished t) eqn:Ht; simpl.
  - intros H. destruct (IH H) as (i & t' & Hi & Ht'). by exists (S i), t'.
  - intros _. by exists 0%nat, t.
Qed.

Lemma finished_started (tasks : list task) :
  forallb finished tasks = true →
  sum_list_with started tasks = List.length tasks.
Proof.
  induction tasks as [|t tasks IH]; simpl; [done |].
  intros [Ht H]%andb_true_iff. rewrite (IH H). by destruct t.
Qed.

Section Concurrent.

Variable code : string.

Lemma resolve_async_responding (now : Z) (st : store) :
  responding (settle (resolve_async now code st).1).
Proof.
  unfold resolve_async. destruct (_ || _); [done |].
  destruct (urlDatabase st !! code); [| simpl; eauto].
  destruct (isExpired now st code); simpl; eauto.
Qed.

Lemma resolve_async_store (now : Z) (st : store) :
  (resolve_async now code st).2 = (resolve now code st).2.
Proof.
  unfold resolve, resolve_async. destruct (_ || _); [done |].
  destruct (urlDatabase st !! code); [| done].
  by destruct (isExpired now st code).
Qed.

(** A segment is a [resolve] from start to end, or the sending of a
    response; it leaves one segment less to run. *)
Lemma loop_step_linear (ev : event) (st st' : store) (tasks tasks' : list task) :
  Forall responding tasks →
  loop_step code ev st tasks = Some (st', tasks') →
  st' = (resolve_seq (start_times [ev]) code st).2
  ∧ Forall responding tasks'
  ∧ List.length tasks' = List.length tasks
  ∧ (S (sum_list_with pending tasks') ≤ sum_list_with pending tasks)%nat.
Proof.
  intros Hall Hstep. destruct ev as [i now | i]; simpl in Hstep.
  - destruct (tasks !! i) as [[| |]|] eqn:Hi; simplify_eq.
    pose proof (resolve_async_responding now st) as Hresp.
    pose proof (sum_list_with_insert pending tasks i Queued
                  (settle (resolve_async now code st).1) Hi) as Hsum.
    split; [simpl; by rewrite resolve_async_store |].
    split; [by apply Forall_insert |].
    split; [by rewrite length_insert |].
    simpl in Hsum. destruct (resolve_async now code st).1; simpl in *; lia.
  - destruct (tasks !! i) as [[|k|]|] eqn:Hi; simplify_eq.
    destruct (Forall_lookup_1 _ _ _ _ Hall Hi) as [r Hk].
    pose proof (sum_list_with_insert pending tasks i (Suspended k)
                  (settle (k st).1) Hi) as Hsum.
    rewrite Hk in Hsum |- *. simpl in *.
    split; [done |]. split; [by apply Forall_insert |].
    split; [by rewrite length_insert | lia].
Qed.

(** The store after any interleaving of the segments is the store after
    the [resolve]s run one after the other in the order of their starts;
    no run has more than two segments per request. *)
Lemma loop_run_linear (evs : list event) :
  ∀ (st st' : store) (tasks tasks' : list task),
    Forall responding tasks →
    loop_run code evs st tasks = Some (st', tasks') →
    st' = (resolve_seq (start_times evs) code st).2
    ∧ Forall responding tasks'
    ∧ List.length tasks' = List.length tasks
    ∧ (List.length evs + sum_list_with pending tasks'
       ≤ sum_list_with pending tasks)%nat.
Proof.
  induction evs as [|ev evs IH]; intros st st' tasks tasks' Hall Hrun.
  - simpl in Hrun. simplify_eq. simpl. repeat split; [done | lia].
  - simpl in Hrun.
    destruct (loop_step code ev st tasks) as [[st1 tasks1]|] eqn:Hstep; [| done].
    destruct (loop_step_linear ev st st1 tasks tasks1 Hall Hstep)
      as (Hst1 & Hall1 & Hlen1 & Hsum1).
    destruct (IH st1 st' tasks1 tasks' Hall1 Hrun) as (Hst' & Hall' & Hlen' & Hsum').
    split; [| split; [done | split; [congruence | simpl; lia]]].
    rewrite Hst', Hst1. by destruct ev.
Qed.

(** A pool with a task that is not finished has a segment to run. *)
Lemma unfinished_enabled (st : store) (tasks : list task) :
  Forall responding tasks →
  forallb finished tasks = false →
  ∃ ev, is_Some (loop_step code ev st tasks).
Proof.
  intros Hall Hunf. destruct (unfinished_lookup tasks Hunf) as (i & t & Hi & Ht).
  destruct t as [|k|r]; [| | done].
  - exists (Start i 0). simpl. by rewrite Hi.
  - exists (Resume i). simpl. by rewrite Hi.
Qed.

Section LiveEntry.

Variable d : urlData.
Variable expiry : date.
Hypothesis not_shorturls : code ≠ "shorturls".
Hypothesis not_health : code ≠ "health".

(** The state of the entry while requests for it are in flight: its count
    is the count at the beginning plus the number of the requests that have
    started. *)
Lemma loop_step_counts (ev : event) (st st' : store) (tasks tasks' : list task) :
  urlDatabase st !! code =
    Some (mkUrlData (originalUrl d) (createdAt d)
            (accessCount d + Z.of_nat (sum_list_with started tasks))) →
  expiryDatabase st !! code = Some expiry →
  Forall (redirecting (originalUrl d)) tasks →
  (∀ i now, ev = Start i now → Date_gt (ValidDate now) expiry = false) →
  loop_step code ev st tasks = Some (st', tasks') →
  urlDatabase st' !! code =
    Some (mkUrlData (originalUrl d) (createdAt d)
            (accessCount d + Z.of_nat (sum_list_with started tasks')))
  ∧ expiryDatabase st' !! code = Some expiry
  ∧ Forall (redirecting (originalUrl d)) tasks'.
Proof.
  intros Hd He Hall Hlive Hstep. destruct ev as [i now | i]; simpl in Hstep.
  - destruct (tasks !! i) as [[| |]|] eqn:Hi; simplify_eq.
    assert (isExpired now st code = false) as Hnot.
    { rewrite (isExpired_lookup now st code expiry He). by apply (Hlive i). }
    pose proof (sum_list_with_insert started tasks i Queued
                  (settle (resolve_async now code st).1) Hi) as Hsum.
    revert Hsum. unfold resolve_async.
    rewrite (reserved_false code not_shorturls not_health), Hd, Hnot.
    simpl. intros Hsum. rewrite lookup_insert_eq.
    split; [| split; [done | by apply Forall_insert]].
    unfold accessed. simpl. do 2 f_equal. lia.
  - destruct (tasks !! i) as [[|k|]|] eqn:Hi; simplify_eq.
    pose proof (Forall_lookup_1 _ _ _ _ Hall Hi) as Hk. simpl in Hk.
    pose proof (sum_list_with_insert started tasks i (Suspended k)
                  (settle (k st).1) Hi) as Hsum.
    rewrite Hk in Hsum |- *. simpl in *.
    split; [| split; [done | by apply Forall_insert]].
    rewrite Hd. do 3 f_equal. lia.
Qed.

Lemma loop_run_counts (evs : list event) :
  ∀ (st st' : store) (tasks tasks' : list task),
    urlDatabase st !! code =
      Some (mkUrlData (originalUrl d) (createdAt d)
              (accessCount d + Z.of_nat (sum_list_with started tasks))) →
    expiryDatabase st !! code = Some expiry →
    Forall (redirecting (originalUrl d)) tasks →
    (∀ i now, Start i now ∈ evs → Date_gt (ValidDate now) expiry = false) →
    loop_run code evs st tasks = Some (st', tasks') →
    urlDatabase st' !! code =
      Some (mkUrlData (originalUrl d) (createdAt d)
              (accessCount d + Z.of_nat (sum_list_with started tasks')))
    ∧ Forall (redirecting (originalUrl d)) tasks'.
Proof.
  induction evs as [|ev evs IH]; intros st st' tasks tasks' Hd He Hall Hlive Hrun.
  - simpl in Hrun. by simplify_eq.
  - simpl in Hrun.
    destruct (loop_step code ev st tasks) as [[st1 tasks1]|] eqn:Hstep; [| done].
    destruct (loop_step_counts ev st st1 tasks tasks1 Hd He Hall) as (Hd1 & He1 & Hall1);
      [| done |].
    { intros i now ->. apply (Hlive i). by left. }
    apply (IH st1 st' tasks1 tasks' Hd1 He1 Hall1); [| done].
    intros i now Hin. apply (Hlive i). by right.
Qed.

End LiveEntry.

End Concurrent.

(** C5, as the code has it.  [n] requests for a shortcode that is not a
    route name arrive together, while its entry [d] is live at every clock
    reading.  Whatever the interleaving of their segments: the store is the
    store of the [resolve]s run one after the other in the order of their
    starts; the count of the entry is the count of [d] plus the number of
    requests started so far; the run has at most [2 * n] segments and, as
    long as a request is not finished, a segment to run; and when all are
    finished every request has been redirected to the URL of [d] and the
    count is the count of [d] plus [n]. *)
Theorem concurrent_resolves_counted (code : string) (st st' : store)
    (d : urlData) (expiry : date) (n : nat) (evs : list event)
    (tasks' : list task) :
  code ≠ "shorturls" → code ≠ "health" →
  urlDatabase st !! code = Some d →
  expiryDatabase st !! code = Some expiry →
  (∀ i now, Start i now ∈ evs → Date_gt (ValidDate now) expiry = false) →
  loop_run code evs st (replicate n Queued) = Some (st', tasks') →
  st' = (resolve_seq (start_times evs) code st).2
  ∧ urlDatabase st' !! code =
      Some (mkUrlData (originalUrl d) (createdAt d)
              (accessCount d + Z.of_nat (sum_list_with started tasks')))
  ∧ (List.length evs ≤ 2 * n)%nat
  ∧ (forallb finished tasks' = false →
     ∃ ev, is_Some (loop_step code ev st' tasks'))
  ∧ (forallb finished tasks' = true →
     tasks' = replicate n (Finished (Redirect 302 (originalUrl d)))
     ∧ urlDatabase st' !! code =
         Some (mkUrlData (originalUrl d) (createdAt d)
                 (accessCount d + Z.of_nat n))).
Proof.
  intros H1 H2 Hd He Hlive Hrun.
  assert (Forall responding (replicate n Queued)) as Hresp.
  { by apply Forall_replicate. }
  destruct (loop_run_linear code evs st st' _ tasks' Hresp Hrun)
    as (Hlin & Hresp' & Hlen & Hsum).
  rewrite sum_list_with_replicate, length_replicate in *. simpl in Hsum.
  destruct (loop_run_counts code d expiry H1 H2 evs st st' (replicate n Queued) tasks')
    as (Hcount & Hred); try done.
  { rewrite sum_list_with_replicate, Hd. destruct d. simpl. do 2 f_equal. lia. }
  { by apply Forall_replicate. }
  split; [done |]. split; [done |]. split; [lia |].
  split; [by apply unfinished_enabled |].
  intros Hfin. split.
  - symmetry. apply replicate_as_Forall. split; [done |].
    apply Forall_forall. intros t Ht.
    pose proof (proj1 (Forall_forall _ _) Hred t Ht) as Htr.
    pose proof (proj1 (forallb_forall _ _) Hfin t (proj1 (list_elem_of_In _ _) Ht)) as Htf.
    destruct t; simpl in *; congruence.
  - by rewrite Hcount, (finished_started tasks' Hfin), Hlen.
Qed.

Lemma concurrent_resolves_counted_witness :
  ∃ st' tasks',
    loop_run "abc" [Start 0 10; Start 1 20; Resume 1; Resume 0] abc_store
      (replicate 2 Queued) = Some (st', tasks')
    ∧ tasks' = replicate 2 (Finished (Redirect 302 "https://old.example/"))
    ∧ urlDatabase st' !! "abc" = Some (mkUrlData "https://old.example/" 0 2).
Proof.
  eexists _, _. split; [vm_compute; reflexivity |].
  eapply (concurrent_resolves_counted "abc" abc_store _
            (mkUrlData "https://old.example/" 0 0) (ValidDate 60000) 2
            [Start 0 10; Start 1 20; Resume 1; Resume 0]);
    try reflexivity; try discriminate.
  intros i now Hin.
  repeat (apply elem_of_cons in Hin as [Heq | Hin]; [by simplify_eq |]).
  by apply elem_of_nil in Hin.
Defined.

(** C5 at the route name "shorturls": two requests for it together,
    against its live entry, are both answered that the route is not found,
    and the count of the entry, 0 before, is 0 after, not 2. *)
Lemma concurrent_resolve_route_name :
  isExpired 1000 shorturls_store "shorturls" = false
  ∧ loop_run "shorturls" [Start 0 1000; Start 1 1000] shorturls_store
      (replicate 2 Queued)
    = Some (shorturls_store, replicate 2 (Finished route_not_found))
  ∧ accessCount <$> urlDatabase shorturls_store !! "shorturls" = Some 0
  ∧ accessCount <$> urlDatabase shorturls_store !! "shorturls" ≠ Some 2.
Proof. vm_compute. repeat split; discriminate. Qed.

(** * Further properties of the code *)

(** ** The generator at any length *)

Lemma append_empty_r (s : string) : s +:+ "" = s.
Proof.
  induction s as [|c s IH]; [done |].
  change (String c (s +:+ "") = String c s). by f_equal.
Qed.

Lemma append_assoc_string (s1 s2 s3 : string) :
  (s1 +:+ s2) +:+ s3 = s1 +:+ (s2 +:+ s3).
Proof.
  induction s1 as [|c s1 IH]; [done |].
  change (String c ((s1 +:+ s2) +:+ s3) = String c (s1 +:+ (s2 +:+ s3))).
  by f_equal.
Qed.

(** The loop appends to what it is given. *)
Lemma generateShortcode_loop_append (rand : nat → nat) (n pos : nat) (result : string) :
  generateShortcode_loop rand pos n result
  = result +:+ generateShortcode_loop rand pos n "".
Proof.
  revert pos result. induction n as [|n IH]; intros pos result; simpl.
  - by rewrite append_empty_r.
  - change ("" +:+ charAt chars (rand pos)) with (charAt chars (rand pos)).
    rewrite (IH (S pos) (result +:+ _)), (IH (S pos) (charAt chars (rand pos))).
    by rewrite append_assoc_string.
Qed.

Lemma get_string_chars (s : string) (k : nat) :
  String.get k s = string_chars s !! k.
Proof.
  revert k. induction s as [|c s IH]; intros [|k]; simpl; done.
Qed.

(** No character occurs twice in the alphabet. *)
Lemma chars_NoDup : NoDup (string_chars chars).
Proof.
  apply (bool_decide_unpack (NoDup (string_chars chars))).
  vm_compute. exact I.
Qed.

Lemma charAt_chars_inj (k1 k2 : nat) :
  (k1 < 62)%nat → (k2 < 62)%nat →
  charAt chars k1 = charAt chars k2 → k1 = k2.
Proof.
  intros H1 H2 Heq.
  destruct (charAt_chars k1 H1) as (c1 & Hc1 & Hg1 & _).
  destruct (charAt_chars k2 H2) as (c2 & Hc2 & Hg2 & _).
  rewrite Hc1, Hc2 in Heq. injection Heq as <-.
  rewrite get_string_chars in Hg1, Hg2.
  exact (NoDup_lookup _ _ _ _ chars_NoDup Hg1 Hg2).
Qed.

(** X1.  For every length [n], with draws in the range of the alphabet,
    [generateShortcode(n)] has exactly [n] characters, all of the alphabet,
    and it is a well-formed shortcode exactly when [n] is between 3 and
    20. *)
Theorem generateShortcode_any_length (rand : nat → nat) (pos n : nat) :
  (∀ i, (pos ≤ i < pos + n)%nat → (rand i < 62)%nat) →
  String.length (generateShortcode rand pos (Some n)) = n
  ∧ from_chars (generateShortcode rand pos (Some n))
  ∧ isValidShortcode (generateShortcode rand pos (Some n))
    = (3 <=? n)%nat && (n <=? 20)%nat.
Proof.
  intros Hrand. unfold generateShortcode. simpl default.
  destruct (generateShortcode_loop_spec rand n pos "" Hrand) as (Hlen & Hal & Hfrom).
  remember (generateShortcode_loop rand pos n "") as code eqn:Hcode.
  change (String.length code = n) in Hlen.
  change (all_alnum code = true) in Hal.
  split; [done |]. split; [by apply Hfrom |].
  unfold isValidShortcode, test_alnum_plus. rewrite Hlen.
  destruct code; [by subst n | by rewrite Hal].
Qed.

Lemma generateShortcode_any_length_witness :
  String.length (generateShortcode example_rand 7 (Some 2%nat)) = 2%nat
  ∧ from_chars (generateShortcode example_rand 7 (Some 2%nat))
  ∧ isValidShortcode (generateShortcode example_rand 7 (Some 2%nat)) = false.
Proof.
  apply (generateShortcode_any_length example_rand 7 2).
  intros i _. unfold example_rand. apply Nat.mod_upper_bound. lia.
Defined.

(** X2.  Two generated shortcodes of the same length are equal only when
    they come from the same draws, one by one: the alphabet has no
    character twice. *)
Theorem generateShortcode_draws_determined (rand1 rand2 : nat → nat) (n pos1 pos2 : nat) :
  (∀ i, (i < n)%nat → (rand1 (pos1 + i) < 62)%nat ∧ (rand2 (pos2 + i) < 62)%nat) →
  generateShortcode rand1 pos1 (Some n) = generateShortcode rand2 pos2 (Some n) →
  ∀ i, (i < n)%nat → rand1 (pos1 + i)%nat = rand2 (pos2 + i)%nat.
Proof.
  unfold generateShortcode. simpl default.
  revert pos1 pos2. induction n as [|n IH]; intros pos1 pos2 Hrange Heq i Hi; [lia |].
  simpl in Heq.
  rewrite (generateShortcode_loop_append rand1 n (S pos1)),
          (generateShortcode_loop_append rand2 n (S pos2)) in Heq.
  destruct (Hrange 0%nat ltac:(lia)) as [Hr1 Hr2]. rewrite !Nat.add_0_r in Hr1, Hr2.
  destruct (charAt_chars _ Hr1) as (c1 & Hc1 & _ & _).
  destruct (charAt_chars _ Hr2) as (c2 & Hc2 & _ & _).
  pose proof (charAt_chars_inj _ _ Hr1 Hr2) as Hinj.
  rewrite Hc1, Hc2 in Heq, Hinj. simpl in Heq. injection Heq as Hc Hrest.
  destruct i as [|i].
  - rewrite !Nat.add_0_r. apply Hinj. by rewrite Hc.
  - replace (pos1 + S i)%nat with (S pos1 + i)%nat by lia.
    replace (pos2 + S i)%nat with (S pos2 + i)%nat by lia.
    apply (IH (S pos1) (S pos2)); [| done | lia].
    intros j Hj. specialize (Hrange (S j) ltac:(lia)).
    by replace (S pos1 + j)%nat with (pos1 + S j)%nat by lia;
       replace (S pos2 + j)%nat with (pos2 + S j)%nat by lia.
Qed.

Lemma generateShortcode_draws_determined_witness :
  example_rand (0 + 3) = example_rand (62 + 3).
Proof.
  apply (generateShortcode_draws_determined example_rand example_rand 6 0 62);
    [| reflexivity | lia].
  intros i _. unfold example_rand. split; apply Nat.mod_upper_bound; lia.
Defined.

(** ** The generation loop of a creation *)

Lemma generate_unique_Some (fuel : nat) (rand : nat → nat) (pos : nat)
    (db : gmap string urlData) (c : string) :
  generate_unique fuel rand pos db = Some c ↔
  ∃ j, (j < fuel)%nat ∧ c = candidate rand pos j ∧ db !! c = None
       ∧ ∀ j', (j' < j)%nat → is_Some (db !! candidate rand pos j').
Proof.
  revert pos. induction fuel as [|fuel IH]; intros pos; simpl.
  - split; [done | intros (j & Hj & _); lia].
  - case_decide as Hdb.
    + rewrite IH. split.
      * intros (j & Hj & -> & Hnone & Hbefore). exists (S j).
        unfold candidate in *.
        replace (pos + 6 * S j)%nat with (pos + 6 + 6 * j)%nat by lia.
        split; [lia |]. split; [done |]. split; [done |].
        intros [|j'] Hj'.
        -- by replace (pos + 6 * 0)%nat with pos by lia.
        -- replace (pos + 6 * S j')%nat with (pos + 6 + 6 * j')%nat by lia.
           apply Hbefore. lia.
      * intros ([|j] & Hj & Hc & Hnone & Hbefore).
        -- unfold candidate in Hc. replace (pos + 6 * 0)%nat with pos in Hc by lia.
           subst c. rewrite Hnone in Hdb. by destruct Hdb.
        -- exists j. unfold candidate in *.
           replace (pos + 6 * S j)%nat with (pos + 6 + 6 * j)%nat in Hc by lia.
           split; [lia |]. split; [done |]. split; [done |].
           intros j' Hj'. specialize (Hbefore (S j') ltac:(lia)).
           by replace (pos + 6 * S j')%nat with (pos + 6 + 6 * j')%nat in Hbefore by lia.
    + apply eq_None_not_Some in Hdb. split.
      * intros [= <-]. exists 0%nat. unfold candidate.
        replace (pos + 6 * 0)%nat with pos by lia.
        split; [lia |]. split; [done |]. split; [done |]. intros j' Hj'. lia.
      * intros ([|j] & Hj & Hc & Hnone & Hbefore).
        -- unfold candidate in Hc. by replace (pos + 6 * 0)%nat with pos in Hc by lia; subst c.
        -- specialize (Hbefore 0%nat ltac:(lia)). unfold candidate in Hbefore.
           replace (pos + 6 * 0)%nat with pos in Hbefore by lia.
           rewrite Hdb in Hbefore. by destruct Hbefore.
Qed.

(** X3.  The generation loop stops at the first round whose shortcode is
    free, with that shortcode; within [fuel] rounds it is still running
    exactly when the shortcodes of all these rounds are taken. *)
Theorem generate_unique_first_free (fuel : nat) (rand : nat → nat) (pos : nat)
    (db : gmap string urlData) :
  (∀ c, generate_unique fuel rand pos db = Some c ↔
        ∃ j, (j < fuel)%nat ∧ c = candidate rand pos j ∧ db !! c = None
             ∧ ∀ j', (j' < j)%nat → is_Some (db !! candidate rand pos j'))
  ∧ (generate_unique fuel rand pos db = None ↔
     ∀ j, (j < fuel)%nat → is_Some (db !! candidate rand pos j)).
Proof.
  split; [intros c; apply generate_unique_Some |].
  destruct (generate_unique fuel rand pos db) as [c|] eqn:Hgen.
  - apply generate_unique_Some in Hgen as (j & Hj & -> & Hnone & _).
    split; [done |]. intros Hall. specialize (Hall j Hj).
    rewrite Hnone in Hall. by destruct Hall.
  - split; [intros _ | done]. intros j.
    induction (lt_wf j) as [j _ IHj]. intros Hj.
    destruct (db !! candidate rand pos j) eqn:Hc; [done |].
    assert (generate_unique fuel rand pos db = Some (candidate rand pos j)) as Hsome.
    { apply generate_unique_Some. exists j. split; [done |]. split; [done |].
      split; [done |]. intros j' Hj'. apply IHj; lia. }
    congruence.
Qed.

(** ** The outcomes of a creation *)

Section CreateOutcomes.

Variable URL_protocol : string → option string.
Variable BASE_URL : string.

(** A creation either leaves the store and answers 400 or 409 (or is still
    drawing), or goes through [create_store] with a shortcode that
    [urlDatabase] does not have. *)
Lemma create_cases (fuel : nat) (rand : nat → nat) (pos : nat)
    (now created : Z) (body : create_body) (st : store) :
  let r := create URL_protocol BASE_URL fuel rand pos now created body st in
  (r.2 = st
   ∧ (r.1 = None
      ∨ ∃ resp, r.1 = Some resp
                ∧ (response_status resp = 400 ∨ response_status resp = 409)))
  ∨ (∃ u v c,
       truthy (url body) = Some u
       ∧ isValidUrl URL_protocol u = true
       ∧ validity_or_default (validity body) = ValidityInteger v ∧ 0 < v
       ∧ urlDatabase st !! c = None
       ∧ (truthy (shortcode body) = Some c ∧ isValidShortcode c = true
          ∨ truthy (shortcode body) = None
            ∧ generate_unique fuel rand pos (urlDatabase st) = Some c)
       ∧ r = (Some (create_store BASE_URL now created u v c st).1,
              (create_store BASE_URL now created u v c st).2)).
Proof.
  unfold create. simpl.
  destruct (truthy (url body)) as [u|]; [| left; eauto 10].
  destruct (isValidUrl URL_protocol u) eqn:Hurl; simpl; [| left; eauto 10].
  destruct (validity_or_default (validity body)) as [|v|] eqn:Hv;
    [left; eauto 10 | | left; eauto 10].
  destruct (Z.leb_spec v 0) as [Hle | Hpos]; [left; eauto 10 |].
  destruct (truthy (shortcode body)) as [c|] eqn:Hc.
  - destruct (isValidShortcode c) eqn:Hcode; simpl; [| left; eauto 10].
    case_decide as Hdb; [left; eauto 10 |].
    apply eq_None_not_Some in Hdb. right. exists u, v, c. eauto 10.
  - destruct (generate_unique fuel rand pos (urlDatabase st)) as [c|] eqn:Hgen;
      [| left; eauto].
    right. exists u, v, c.
    assert (urlDatabase st !! c = None) as Hfree.
    { by apply generate_unique_Some in Hgen as (j & _ & _ & Hnone & _). }
    eauto 10.
Qed.

Lemma create_store_cases (now created : Z) (u c : string) (v : Z) (st : store) :
  let r := create_store BASE_URL now created u v c st in
  r.2 = mkStore (<[c := mkUrlData u created 0]> (urlDatabase st))
                (<[c := TimeClip (now + v * 60 * 1000)]> (expiryDatabase st))
  ∧ (TimeClip (now + v * 60 * 1000) = ValidDate (now + v * 60 * 1000)
     ∧ r.1 = Json 201 (CreatedBody (BASE_URL +:+ "/" +:+ c) (now + v * 60 * 1000))
     ∨ TimeClip (now + v * 60 * 1000) = InvalidDate
       ∧ response_status r.1 = 500).
Proof.
  unfold create_store, TimeClip.
  destruct (Z.abs (now + v * 60 * 1000) <=? MAX_TIME); simpl; auto.
Qed.

(** X4.  A creation whose body gives [url] and [shortcode] as strings, or
    not at all, and a validity that is absent, a number or another value
    that converts to a string, has one of these outcomes.  It answers 400
    or 409, or its generation loop is still running, and the store is as
    it was.  Or
    it has inserted, under a shortcode that [urlDatabase] did not have, an
    entry with the URL of the request and a count of 0, with its expiry in
    [expiryDatabase]; it answers 201 with the short link and the expiry
    then, except when the expiry is not a date, where it answers 500. *)
Theorem create_outcomes (fuel : nat) (rand : nat → nat) (pos : nat)
    (now created : Z) (body : create_body) (st : store) :
  let r := create URL_protocol BASE_URL fuel rand pos now created body st in
  (r.2 = st
   ∧ (r.1 = None
      ∨ ∃ resp, r.1 = Some resp
                ∧ (response_status resp = 400 ∨ response_status resp = 409)))
  ∨ (∃ u v c,
       truthy (url body) = Some u ∧ isValidUrl URL_protocol u = true ∧ 0 < v
       ∧ urlDatabase st !! c = None
       ∧ r.2 = mkStore (<[c := mkUrlData u created 0]> (urlDatabase st))
                 (<[c := TimeClip (now + v * 60 * 1000)]> (expiryDatabase st))
       ∧ (TimeClip (now + v * 60 * 1000) = ValidDate (now + v * 60 * 1000)
          ∧ r.1 = Some (Json 201 (CreatedBody (BASE_URL +:+ "/" +:+ c)
                                  (now + v * 60 * 1000)))
          ∨ TimeClip (now + v * 60 * 1000) = InvalidDate
            ∧ ∃ resp, r.1 = Some resp ∧ response_status resp = 500)).
Proof.
  intros r. subst r.
  destruct (create_cases fuel rand pos now created body st)
    as [Hsame | (u & v & c & Hu & Hurl & _ & Hpos & Hfree & _ & Hr)]; [by left |].
  right. exists u, v, c. rewrite Hr. simpl.
  destruct (create_store_cases now created u c v st) as (Hst & Hresp).
  repeat (split; [done |]).
  destruct Hresp as [[Hclip ->] | [Hclip Hstatus]]; [by left |].
  right. eauto.
Qed.

(** X5.  On a store whose two maps hold the same shortcodes, a creation
    overwrites nothing: every record of the two maps is still there,
    unchanged, after it, and at most one shortcode is new. *)
Theorem create_keeps_entries (fuel : nat) (rand : nat → nat) (pos : nat)
    (now created : Z) (body : create_body) (st : store) :
  store_consistent st →
  let st' := (create URL_protocol BASE_URL fuel rand pos now created body st).2 in
  urlDatabase st ⊆ urlDatabase st'
  ∧ expiryDatabase st ⊆ expiryDatabase st'
  ∧ (size (urlDatabase st') ≤ S (size (urlDatabase st)))%nat.
Proof.
  intros Hcons st'. subst st'.
  destruct (create_cases fuel rand pos now created body st)
    as [[-> _] | (u & v & c & _ & _ & _ & _ & Hfree & _ & ->)]; [by auto with lia |].
  destruct (create_store_cases now created u c v st) as (-> & _). simpl.
  assert (expiryDatabase st !! c = None) as Hfree'.
  { apply eq_None_not_Some. intros Hsome.
    apply (store_consistent_lookup st) in Hsome; [| done].
    rewrite Hfree in Hsome. by destruct Hsome. }
  split; [by apply insert_subseteq |]. split; [by apply insert_subseteq |].
  by rewrite map_size_insert_None.
Qed.

End CreateOutcomes.

Lemma create_keeps_entries_witness :
  urlDatabase mixed_store
  ⊆ urlDatabase (create example_protocol example_base 0 example_rand 0 0 5
                   abc_body mixed_store).2.
Proof.
  apply (create_keeps_entries example_protocol example_base 0 example_rand 0 0 5
           abc_body mixed_store).
  vm_compute. reflexivity.
Defined.

(** ** Creation without a requested shortcode, and what follows a creation *)

Section CreateGenerated.

Variable URL_protocol : string → option string.
Variable BASE_URL : string.

Lemma candidate_valid (rand : nat → nat) (pos j : nat) :
  (∀ i, (rand i < 62)%nat) →
  String.length (candidate rand pos j) = 6%nat
  ∧ isValidShortcode (candidate rand pos j) = true.
Proof.
  intros Hrand. unfold candidate.
  destruct (generateShortcode_loop_spec rand 6 (pos + 6 * j) "") as (Hlen & Hal & _).
  { intros i _. apply Hrand. }
  unfold generateShortcode. change (default 6%nat None) with 6%nat.
  remember (generateShortcode_loop rand (pos + 6 * j) 6 "") as code eqn:Hcode.
  change (String.length code = 6%nat) in Hlen.
  change (all_alnum code = true) in Hal.
  split; [done |]. unfold isValidShortcode, test_alnum_plus. rewrite Hlen.
  destruct code; [discriminate Hlen | by rewrite Hal].
Qed.

(** X6.  A creation without requested shortcode, with a well-formed URL
    and a positive validity whose expiry is a date, and with draws in the
    range of the alphabet: as soon as one of the [fuel] rounds of the
    loop gives a shortcode that is free, the creation answers 201 with a
    shortcode of 6 characters that is well formed and was free, and
    inserts the entry under it. *)
Theorem create_generated (fuel : nat) (rand : nat → nat) (pos : nat)
    (now created : Z) (body : create_body) (st : store) (u : string) (v : Z)
    (j : nat) :
  truthy (url body) = Some u → isValidUrl URL_protocol u = true →
  validity_or_default (validity body) = ValidityInteger v → 0 < v →
  Z.abs (now + v * 60 * 1000) ≤ MAX_TIME →
  truthy (shortcode body) = None →
  (∀ i, (rand i < 62)%nat) →
  (j < fuel)%nat → urlDatabase st !! candidate rand pos j = None →
  ∃ c, create URL_protocol BASE_URL fuel rand pos now created body st
       = (Some (Json 201 (CreatedBody (BASE_URL +:+ "/" +:+ c)
                            (now + v * 60 * 1000))),
          mkStore (<[c := mkUrlData u created 0]> (urlDatabase st))
                  (<[c := ValidDate (now + v * 60 * 1000)]> (expiryDatabase st)))
       ∧ String.length c = 6%nat
       ∧ isValidShortcode c = true
       ∧ urlDatabase st !! c = None.
Proof.
  intros Hu Hurl Hv Hpos Hrange Hc Hrand Hj Hfree.
  destruct (generate_unique fuel rand pos (urlDatabase st)) as [c|] eqn:Hgen.
  - exists c.
    pose proof Hgen as Hspec.
    apply generate_unique_Some in Hspec as (j0 & _ & -> & Hnone & _).
    destruct (candidate_valid rand pos j0 Hrand) as [Hlen Hvalid].
    split; [| done].
    unfold create. rewrite Hu, Hurl, Hv, Hc, Hgen. simpl.
    destruct (Z.leb_spec v 0); [lia |].
    by rewrite create_store_in_range.
  - assert (∀ j, (j < fuel)%nat →
                 is_Some (urlDatabase st !! candidate rand pos j)) as Hall.
    { clear Hj Hfree j. intros j. induction (lt_wf j) as [j _ IHj]. intros Hj.
      destruct (urlDatabase st !! candidate rand pos j) eqn:Hcj; [done |].
      assert (generate_unique fuel rand pos (urlDatabase st)
              = Some (candidate rand pos j)) as Hsome; [| congruence].
      apply generate_unique_Some. exists j. split; [done |]. split; [done |].
      split; [done |]. intros j' Hj'. apply IHj; lia. }
    specialize (Hall j Hj). rewrite Hfree in Hall. by destruct Hall.
Qed.

(** X7.  After a creation that has answered 201 with the expiry [e], the
    shortcode [c] of the short link gives back what was stored: up to [e]
    included, [getStats] answers with the URL of the request, the time of
    the creation, the expiry and a count of 0; and when [c] is not the
    name of a route, [resolve] redirects to that URL, after which
    [getStats] shows a count of 1. *)
Theorem create_then_lookup (fuel : nat) (rand : nat → nat) (pos : nat)
    (now created : Z) (body : create_body) (st st' : store) (link : string) (e : Z) :
  create URL_protocol BASE_URL fuel rand pos now created body st
  = (Some (Json 201 (CreatedBody link e)), st') →
  ∃ c u,
    link = BASE_URL +:+ "/" +:+ c
    ∧ truthy (url body) = Some u
    ∧ ∀ t, t ≤ e →
        getStats t c st'
        = (Json 200 (StatsBody c u created (Some (ValidDate e)) 0), st')
        ∧ (c ≠ "shorturls" → c ≠ "health" →
           (resolve t c st').1 = Redirect 302 u
           ∧ getStats t c (resolve t c st').2
             = (Json 200 (StatsBody c u created (Some (ValidDate e)) 1),
                (resolve t c st').2)).
Proof.
  intros Hcreate.
  destruct (create_cases URL_protocol BASE_URL fuel rand pos now created body st)
    as [[_ [Hnone | (resp & Hresp & Hstatus)]]
       | (u & v & c & Hu & _ & _ & _ & _ & _ & Hr)];
    rewrite Hcreate in *; simpl in *.
  - discriminate.
  - injection Hresp as <-. simpl in Hstatus. lia.
  - destruct (create_store_cases BASE_URL now created u c v st)
      as (Hst & [[Hclip Hresp] | [_ Hstatus]]).
    2: { injection Hr as Hr1 Hr2. rewrite <- Hr1 in Hstatus. discriminate. }
    injection Hr as Hr1 Hr2. rewrite Hresp in Hr1. injection Hr1 as -> ->.
    rewrite Hst, Hclip in Hr2. clear Hst Hresp Hcreate. subst st'.
    exists c, u. split; [done |]. split; [done |]. intros t Ht.
    set (st1 := mkStore _ _).
    assert (urlDatabase st1 !! c = Some (mkUrlData u created 0)) as Hd.
    { apply lookup_insert_eq. }
    assert (expiryDatabase st1 !! c = Some (ValidDate (now + v * 60 * 1000))) as He.
    { apply lookup_insert_eq. }
    assert (isExpired t st1 c = false) as Hlive.
    { rewrite (isExpired_lookup t st1 c _ He), Date_gt_valid. apply Z.ltb_ge. lia. }
    split.
    + by rewrite (getStats_live t c st1 _ Hd Hlive), He.
    + intros H1 H2. rewrite (resolve_live t c st1 _ H1 H2 Hd Hlive). simpl.
      split; [done |].
      set (st2 := mkStore _ _).
      assert (urlDatabase st2 !! c = Some (accessed (mkUrlData u created 0))) as Hd2.
      { apply lookup_insert_eq. }
      assert (isExpired t st2 c = false) as Hlive2.
      { exact Hlive. }
      assert (expiryDatabase st2 !! c = Some (ValidDate (now + v * 60 * 1000))) as He2.
      { exact He. }
      by rewrite (getStats_live t c st2 _ Hd2 Hlive2), He2.
Qed.

End CreateGenerated.

Lemma create_generated_witness :
  ∃ c, create example_protocol example_base 1 example_rand 0 1000 1001
         (mkCreateBody (Some "https://example.com/a") ValidityAbsent None)
         initial_store
       = (Some (Json 201 (CreatedBody (example_base +:+ "/" +:+ c)
                            (1000 + 30 * 60 * 1000))),
          mkStore (<[c := mkUrlData "https://example.com/a" 1001 0]> ∅)
                  (<[c := ValidDate (1000 + 30 * 60 * 1000)]> ∅))
       ∧ String.length c = 6%nat
       ∧ isValidShortcode c = true
       ∧ urlDatabase initial_store !! c = None.
Proof.
  apply (create_generated example_protocol example_base 1 example_rand 0 1000 1001
           _ initial_store "https://example.com/a" 30 0);
    try reflexivity; try discriminate; try lia.
  intros i. unfold example_rand. apply Nat.mod_upper_bound. lia.
Defined.

Lemma create_then_lookup_witness :
  ∃ c u,
    "http://localhost:3000/abc" = example_base +:+ "/" +:+ c
    ∧ truthy (url abc_body) = Some u
    ∧ ∀ t, t ≤ 60000 →
        getStats t c
          (mkStore (<["abc" := mkUrlData "https://example.com/" 5 0]> ∅)
                   (<["abc" := ValidDate 60000]> ∅))
        = (Json 200 (StatsBody c u 5 (Some (ValidDate 60000)) 0),
           mkStore (<["abc" := mkUrlData "https://example.com/" 5 0]> ∅)
                   (<["abc" := ValidDate 60000]> ∅))
        ∧ (c ≠ "shorturls" → c ≠ "health" →
           (resolve t c
              (mkStore (<["abc" := mkUrlData "https://example.com/" 5 0]> ∅)
                       (<["abc" := ValidDate 60000]> ∅))).1 = Redirect 302 u
           ∧ getStats t c
               (resolve t c
                  (mkStore (<["abc" := mkUrlData "https://example.com/" 5 0]> ∅)
                           (<["abc" := ValidDate 60000]> ∅))).2
             = (Json 200 (StatsBody c u 5 (Some (ValidDate 60000)) 1),
                (resolve t c
                   (mkStore (<["abc" := mkUrlData "https://example.com/" 5 0]> ∅)
                            (<["abc" := ValidDate 60000]> ∅))).2)).
Proof.
  apply (create_then_lookup example_protocol example_base 0 example_rand 0 0 5
           abc_body initial_store).
  vm_compute. reflexivity.
Defined.

(** ** What a request does to the entries of the store *)

Lemma evict_lookup_ne (code c : string) (st : store) :
  c ≠ code →
  urlDatabase (evict code st) !! c = urlDatabase st !! c
  ∧ expiryDatabase (evict code st) !! c = expiryDatabase st !! c.
Proof. intros Hne. unfold evict. simpl. by rewrite !lookup_delete_ne. Qed.

Lemma resolve_store (now : Z) (code : string) (st : store) :
  (resolve now code st).2 = st
  ∨ (resolve now code st).2 = evict code st
    ∧ is_Some (urlDatabase st !! code) ∧ isExpired now st code = true
  ∨ ∃ d, urlDatabase st !! code = Some d ∧ isExpired now st code = false
         ∧ (resolve now code st).2
           = mkStore (<[code := accessed d]> (urlDatabase st)) (expiryDatabase st).
Proof.
  rewrite resolve_unfold. destruct (_ || _); [by left |].
  destruct (urlDatabase st !! code) as [d|] eqn:Hd; [| by left].
  destruct (isExpired now st code) eqn:He; [right; left; eauto | right; right; eauto].
Qed.

Lemma getStats_store_expired (now : Z) (code : string) (st : store) :
  (getStats now code st).2 = st
  ∨ (getStats now code st).2 = evict code st
    ∧ is_Some (urlDatabase st !! code) ∧ isExpired now st code = true.
Proof.
  unfold getStats. destruct (urlDatabase st !! code) as [d|] eqn:Hd; [| by left].
  destruct (isExpired now st code) eqn:He; [right; eauto | by left].
Qed.

Section Requests.

Variable URL_protocol : string → option string.
Variable BASE_URL : string.

(** X8.  Whatever the request, an entry of the store is afterwards either
    removed or still there with the same URL, the same time of creation
    and the same expiry, and with a count that is the same or one more. *)
Theorem request_keeps_entry (r : request) (st : store) (c : string) (d : urlData) :
  urlDatabase st !! c = Some d →
  let st' := handle URL_protocol BASE_URL r st in
  urlDatabase st' !! c = None
  ∨ ∃ d', urlDatabase st' !! c = Some d'
          ∧ originalUrl d' = originalUrl d
          ∧ createdAt d' = createdAt d
          ∧ (accessCount d' = accessCount d ∨ accessCount d' = accessCount d + 1)
          ∧ expiryDatabase st' !! c = expiryDatabase st !! c.
Proof.
  intros Hd st'. subst st'.
  assert (∀ st1, urlDatabase st1 !! c = urlDatabase st !! c →
                 expiryDatabase st1 !! c = expiryDatabase st !! c →
                 urlDatabase st1 !! c = None
                 ∨ ∃ d', urlDatabase st1 !! c = Some d'
                         ∧ originalUrl d' = originalUrl d
                         ∧ createdAt d' = createdAt d
                         ∧ (accessCount d' = accessCount d
                            ∨ accessCount d' = accessCount d + 1)
                         ∧ expiryDatabase st1 !! c = expiryDatabase st !! c) as Hsame.
  { intros st1 Hu He. right. exists d. rewrite Hu, He.
    split; [done |]. split; [done |]. split; [done |]. split; [by left | done]. }
  assert (∀ code, urlDatabase (evict code st) !! c = None
                  ∨ ∃ d', urlDatabase (evict code st) !! c = Some d'
                          ∧ originalUrl d' = originalUrl d
                          ∧ createdAt d' = createdAt d
                          ∧ (accessCount d' = accessCount d
                             ∨ accessCount d' = accessCount d + 1)
                          ∧ expiryDatabase (evict code st) !! c
                            = expiryDatabase st !! c) as Hevict.
  { intros code. destruct (decide (c = code)) as [-> | Hne].
    - left. apply evict_lookup.
    - apply Hsame; by apply evict_lookup_ne. }
  destruct r as [fuel rand pos now created body | now code | now code | now]; simpl.
  - destruct (create_cases URL_protocol BASE_URL fuel rand pos now created body st)
      as [[-> _] | (u & v & c0 & _ & _ & _ & _ & Hfree & _ & ->)]; [by apply Hsame |].
    destruct (create_store_cases BASE_URL now created u c0 v st) as (-> & _).
    assert (c0 ≠ c) as Hne by congruence.
    apply Hsame; simpl; by rewrite lookup_insert_ne.
  - destruct (getStats_store now code st) as [-> | ->]; [by apply Hsame | apply Hevict].
  - destruct (resolve_store now code st) as [-> | [[-> _] | (d0 & Hd0 & _ & ->)]];
      [by apply Hsame | apply Hevict |].
    destruct (decide (c = code)) as [-> | Hne].
    + right. exists (accessed d0). simpl. rewrite lookup_insert_eq.
      assert (d0 = d) as -> by congruence. auto 10.
    + apply Hsame; simpl; [by rewrite lookup_insert_ne | done].
  - pose proof (cleanup_lookup now st c) as Hc. simpl in Hc.
    destruct (expiryDatabase st !! c) as [e|] eqn:He.
    + destruct (Date_gt (ValidDate now) e); destruct Hc as [Hu Hx]; [by left |].
      apply Hsame; simpl; congruence.
    + destruct Hc as [Hu Hx]. apply Hsame; simpl; congruence.
Qed.

(** X9.  No request removes an entry that is not expired at the clock the
    request reads: such an entry is in both maps afterwards. *)
Theorem live_entry_survives (r : request) (st : store) (c : string) :
  is_Some (urlDatabase st !! c) →
  isExpired (request_clock r) st c = false →
  is_Some (urlDatabase (handle URL_protocol BASE_URL r st) !! c)
  ∧ is_Some (expiryDatabase (handle URL_protocol BASE_URL r st) !! c).
Proof.
  intros Hu Hlive.
  assert (is_Some (expiryDatabase st !! c)) as He.
  { unfold isExpired in Hlive. by destruct (expiryDatabase st !! c). }
  assert (∀ code, isExpired (request_clock r) st code = true →
                  is_Some (urlDatabase (evict code st) !! c)
                  ∧ is_Some (expiryDatabase (evict code st) !! c)) as Hevict.
  { intros code Hexp. assert (c ≠ code) as Hne by congruence.
    destruct (evict_lookup_ne code c st Hne) as [-> ->]. done. }
  destruct r as [fuel rand pos now created body | now code | now code | now];
    simpl in *.
  - destruct (create_cases URL_protocol BASE_URL fuel rand pos now created body st)
      as [[-> _] | (u & v & c0 & _ & _ & _ & _ & Hfree & _ & ->)]; [done |].
    destruct (create_store_cases BASE_URL now created u c0 v st) as (-> & _).
    assert (c0 ≠ c) as Hne. { intros ->. rewrite Hfree in Hu. by destruct Hu. }
    simpl. by rewrite !lookup_insert_ne.
  - destruct (getStats_store_expired now code st) as [-> | (-> & _ & Hexp)];
      [done | by apply Hevict].
  - destruct (resolve_store now code st)
      as [-> | [(-> & _ & Hexp) | (d0 & Hd0 & _ & ->)]]; [done | by apply Hevict |].
    simpl. split; [| done].
    destruct (decide (c = code)) as [-> | Hne];
      [by rewrite lookup_insert_eq | by rewrite lookup_insert_ne].
  - pose proof (cleanup_lookup now st c) as Hc. simpl in Hc.
    destruct He as [e He]. rewrite He in Hc.
    rewrite (isExpired_lookup now st c e He) in Hlive. rewrite Hlive in Hc.
    destruct Hc as [-> ->]. done.
Qed.

(** X10.  [getStats] and [resolve] of a shortcode leave the records of
    every other shortcode, in both maps, as they are. *)
Theorem lookups_touch_one_code (now : Z) (code c : string) (st : store) :
  c ≠ code →
  urlDatabase (getStats now code st).2 !! c = urlDatabase st !! c
  ∧ expiryDatabase (getStats now code st).2 !! c = expiryDatabase st !! c
  ∧ urlDatabase (resolve now code st).2 !! c = urlDatabase st !! c
  ∧ expiryDatabase (resolve now code st).2 !! c = expiryDatabase st !! c.
Proof.
  intros Hne. destruct (evict_lookup_ne code c st Hne) as [Hu He].
  split; [| split; [| split]].
  - by destruct (getStats_store now code st) as [-> | ->].
  - by destruct (getStats_store now code st) as [-> | ->].
  - destruct (resolve_store now code st) as [-> | [[-> _] | (d0 & _ & _ & ->)]];
      [done | done |]. simpl. by rewrite lookup_insert_ne.
  - by destruct (resolve_store now code st) as [-> | [[-> _] | (d0 & _ & _ & ->)]].
Qed.

End Requests.

Lemma request_keeps_entry_witness :
  let st' := handle example_protocol example_base (GetRedirect 10 "abc") abc_store in
  urlDatabase st' !! "abc" = None
  ∨ ∃ d', urlDatabase st' !! "abc" = Some d'
          ∧ originalUrl d' = "https://old.example/"
          ∧ createdAt d' = 0
          ∧ (accessCount d' = 0 ∨ accessCount d' = 0 + 1)
          ∧ expiryDatabase st' !! "abc" = expiryDatabase abc_store !! "abc".
Proof.
  apply (request_keeps_entry example_protocol example_base (GetRedirect 10 "abc")
           abc_store "abc" (mkUrlData "https://old.example/" 0 0)).
  reflexivity.
Defined.

Lemma live_entry_survives_witness :
  is_Some (urlDatabase
             (handle example_protocol example_base (CleanupTimer 120000) mixed_store)
           !! "live1")
  ∧ is_Some (expiryDatabase
               (handle example_protocol example_base (CleanupTimer 120000) mixed_store)
             !! "live1").
Proof.
  apply (live_entry_survives example_protocol example_base (CleanupTimer 120000)
           mixed_store "live1"); [| reflexivity].
  vm_compute. eauto.
Defined.

Lemma lookups_touch_one_code_witness :
  urlDatabase (getStats 120000 "old1" mixed_store).2 !! "live1"
  = urlDatabase mixed_store !! "live1".
Proof.
  apply (lookups_touch_one_code 120000 "old1" "live1" mixed_store). discriminate.
Defined.

(** ** The cleanup and the eviction on access *)

Lemma Date_gt_earlier (t now : Z) (e : date) :
  t ≤ now → Date_gt (ValidDate now) e = false → Date_gt (ValidDate t) e = false.
Proof.
  intros Ht. destruct e as [x|]; [| done]. rewrite !Date_gt_valid.
  intros Hnow%Z.ltb_ge. apply Z.ltb_ge. lia.
Qed.

(** X11.  After a cleanup at the clock [now] of a store whose two maps
    hold the same shortcodes, no [getStats] and no [resolve] at a clock
    up to [now] finds an expired entry: none answers that the URL is gone,
    and [getStats] leaves the store as it is. *)
Theorem cleanup_leaves_nothing_expired (now t : Z) (st : store) (code : string) :
  store_consistent st → t ≤ now →
  let st' := (cleanupExpiredUrls now st).2 in
  (getStats t code st').1 ≠ gone
  ∧ (getStats t code st').2 = st'
  ∧ (resolve t code st').1 ≠ gone.
Proof.
  intros Hcons Ht st'.
  pose proof (cleanup_consistent now st Hcons) as Hcons'. fold st' in Hcons'.
  destruct (urlDatabase st' !! code) as [d|] eqn:Hd.
  - assert (isExpired t st' code = false) as Hlive.
    { destruct (proj1 (store_consistent_lookup st') Hcons' code) as [He _].
      destruct He as [e He]; [by rewrite Hd |].
      rewrite (isExpired_lookup t st' code e He).
      apply (Date_gt_earlier t now e Ht).
      by apply (cleanup_leaves_live now st code e). }
    rewrite (getStats_live t code st' d Hd Hlive). simpl.
    split; [done |]. split; [done |].
    rewrite resolve_unfold, Hd, Hlive. by destruct (_ || _).
  - rewrite (getStats_missing t code st' Hd). simpl.
    split; [done |]. split; [done |].
    rewrite resolve_unfold, Hd. by destruct (_ || _).
Qed.

Lemma cleanup_leaves_nothing_expired_witness :
  (getStats 100000 "old1" (cleanupExpiredUrls 120000 mixed_store).2).1 ≠ gone
  ∧ (getStats 100000 "old1" (cleanupExpiredUrls 120000 mixed_store).2).2
    = (cleanupExpiredUrls 120000 mixed_store).2
  ∧ (resolve 100000 "old1" (cleanupExpiredUrls 120000 mixed_store).2).1 ≠ gone.
Proof.
  apply (cleanup_leaves_nothing_expired 120000 100000 mixed_store "old1");
    [vm_compute; reflexivity | lia].
Defined.

(** X12.  On a store whose two maps hold the same shortcodes, the
    eviction on access removes nothing that the cleanup at the same clock
    would keep: a cleanup after a [getStats], or after a [resolve] that has
    not redirected, gives the store of the cleanup alone. *)
Theorem eviction_on_access_within_cleanup (now : Z) (code : string) (st : store) :
  store_consistent st →
  (cleanupExpiredUrls now (getStats now code st).2).2 = (cleanupExpiredUrls now st).2
  ∧ (is_redirect (resolve now code st).1 = false →
     (cleanupExpiredUrls now (resolve now code st).2).2
     = (cleanupExpiredUrls now st).2).
Proof.
  intros Hcons.
  assert (is_Some (urlDatabase st !! code) → isExpired now st code = true →
          (cleanupExpiredUrls now (evict code st)).2 = (cleanupExpiredUrls now st).2)
    as Hevict.
  { intros Hu Hexp.
    apply (proj1 (store_consistent_lookup st) Hcons code) in Hu as [e He].
    rewrite (isExpired_lookup now st code e He) in Hexp.
    apply store_eq; intros k;
      pose proof (cleanup_lookup now st k) as H1;
      pose proof (cleanup_lookup now (evict code st) k) as H2;
      simpl in H1, H2 |- *;
      destruct (decide (k = code)) as [-> | Hne].
    - rewrite lookup_delete_eq in H2. rewrite He, Hexp in H1.
      destruct H1 as [-> _], H2 as [-> _]. by rewrite lookup_delete_eq.
    - rewrite !lookup_delete_ne in H2 by done.
      destruct (expiryDatabase st !! k) as [e'|];
        [destruct (Date_gt (ValidDate now) e') |];
        destruct H1 as [-> _], H2 as [-> _]; done.
    - rewrite lookup_delete_eq in H2. rewrite He, Hexp in H1.
      destruct H1 as [_ ->], H2 as [_ ->]. done.
    - rewrite !lookup_delete_ne in H2 by done.
      destruct (expiryDatabase st !! k) as [e'|];
        [destruct (Date_gt (ValidDate now) e') |];
        destruct H1 as [_ ->], H2 as [_ ->]; done. }
  split.
  - destruct (getStats_store_expired now code st) as [-> | (-> & Hu & Hexp)];
      [done | by apply Hevict].
  - intros Hnot.
    destruct (resolve_store now code st)
      as [-> | [(-> & Hu & Hexp) | (d & Hd & Hlive & Hst)]];
      [done | by apply Hevict |].
    clear Hst. rewrite resolve_unfold, Hd, Hlive in Hnot |- *.
    by destruct (_ || _).
Qed.

Lemma eviction_on_access_within_cleanup_witness :
  (cleanupExpiredUrls 120000 (getStats 120000 "old1" mixed_store).2).2
  = (cleanupExpiredUrls 120000 mixed_store).2.
Proof.
  refine (proj1 (eviction_on_access_within_cleanup 120000 "old1" mixed_store _)).
  vm_compute. reflexivity.
Defined.

(** X13.  The cleanup keeps in [expiryDatabase] exactly the records that
    are not expired, and on a store whose two maps hold the same
    shortcodes each of the maps loses as many records as [expiryDatabase]
    has expired ones. *)
Theorem cleanup_evicts_the_expired (now : Z) (st : store) :
  store_consistent st →
  let st' := (cleanupExpiredUrls now st).2 in
  let evicted := size (filter (expired_entry now) (expiryDatabase st)) in
  expiryDatabase st' = filter (λ entry, ¬ expired_entry now entry) (expiryDatabase st)
  ∧ size (expiryDatabase st) = (size (expiryDatabase st') + evicted)%nat
  ∧ size (urlDatabase st) = (size (urlDatabase st') + evicted)%nat.
Proof.
  intros Hcons st' evicted. subst st' evicted.
  assert (expiryDatabase (cleanupExpiredUrls now st).2
          = filter (λ entry, ¬ expired_entry now entry) (expiryDatabase st)) as Hfilter.
  { apply map_eq. intros k. pose proof (cleanup_lookup now st k) as H.
    simpl in H |- *.
    destruct (expiryDatabase st !! k) as [e|] eqn:Hk.
    - destruct (Date_gt (ValidDate now) e) eqn:Hgt; destruct H as [_ ->].
      + symmetry. apply map_lookup_filter_None. right. intros x Hx Hnot.
        apply Hnot. unfold expired_entry. simpl. congruence.
      + symmetry. apply map_lookup_filter_Some. split; [done |].
        unfold expired_entry. simpl. congruence.
    - destruct H as [_ ->]. symmetry. apply map_lookup_filter_None. by left. }
  assert (size (expiryDatabase st)
          = (size (expiryDatabase (cleanupExpiredUrls now st).2)
             + size (filter (expired_entry now) (expiryDatabase st)))%nat) as Hsize.
  { rewrite Hfilter.
    rewrite <- (map_filter_union_complement (expired_entry now) (expiryDatabase st)) at 1.
    rewrite map_size_disj_union by apply map_disjoint_filter_complement. lia. }
  split; [done |]. split; [done |].
  pose proof (cleanup_consistent now st Hcons) as Hcons'.
  unfold store_consistent in Hcons, Hcons'.
  rewrite <- (size_dom (urlDatabase st)),
          <- (size_dom (urlDatabase (cleanupExpiredUrls now st).2)).
  rewrite Hcons, Hcons', !size_dom. done.
Qed.

Lemma cleanup_evicts_the_expired_witness :
  size (urlDatabase mixed_store)
  = (size (urlDatabase (cleanupExpiredUrls 120000 mixed_store).2)
     + size (filter (expired_entry 120000) (expiryDatabase mixed_store)))%nat.
Proof.
  apply (cleanup_evicts_the_expired 120000 mixed_store).
  vm_compute. reflexivity.
Defined.

(** ** The entries of the stores the service can reach *)

Lemma cleanup_url_subseteq (now : Z) (st : store) :
  urlDatabase (cleanupExpiredUrls now st).2 ⊆ urlDatabase st.
Proof.
  apply map_subseteq_spec. intros k d Hk.
  pose proof (cleanup_lookup now st k) as H. simpl in H, Hk.
  destruct (expiryDatabase st !! k) as [e|];
    [destruct (Date_gt (ValidDate now) e) |]; destruct H as [Hu _]; congruence.
Qed.

Section Reachable.

Variable URL_protocol : string → option string.
Variable BASE_URL : string.

Lemma handle_well_formed (r : request) (st : store) :
  draws_in_range r →
  (∀ c d, urlDatabase st !! c = Some d → entry_well_formed URL_protocol c d) →
  ∀ c d, urlDatabase (handle URL_protocol BASE_URL r st) !! c = Some d →
         entry_well_formed URL_protocol c d.
Proof.
  intros Hdraws Hinv c d.
  destruct r as [fuel rand pos now created body | now code | now code | now]; simpl.
  - destruct (create_cases URL_protocol BASE_URL fuel rand pos now created body st)
      as [[-> _] | (u & v & c0 & _ & Hurl & _ & _ & _ & Hcode & ->)]; [apply Hinv |].
    destruct (create_store_cases BASE_URL now created u c0 v st) as (-> & _). simpl.
    destruct (decide (c = c0)) as [-> | Hne].
    + rewrite lookup_insert_eq. intros [= <-]. split; [| by split].
      destruct Hcode as [[_ Hvalid] | [_ Hgen]]; [done |].
      apply generate_unique_Some in Hgen as (j & _ & -> & _).
      by apply candidate_valid.
    + rewrite lookup_insert_ne by done. apply Hinv.
  - intros Hd. apply Hinv. by apply (lookup_weaken _ _ _ _ Hd), getStats_subseteq.
  - destruct (resolve_store now code st) as [-> | [[-> _] | (d0 & Hd0 & _ & ->)]].
    + apply Hinv.
    + intros Hd. apply Hinv. by apply (lookup_weaken _ _ _ _ Hd), delete_subseteq.
    + simpl. destruct (decide (c = code)) as [-> | Hne].
      * rewrite lookup_insert_eq. intros [= <-].
        destruct (Hinv code d0 Hd0) as (Hc & Hu & Hn).
        split; [done |]. split; [done |]. simpl. lia.
      * rewrite lookup_insert_ne by done. apply Hinv.
  - intros Hd. apply Hinv. by apply (lookup_weaken _ _ _ _ Hd), cleanup_url_subseteq.
Qed.

(** X14.  In every store the service reaches from its start, through any
    sequence of requests whose draws are in the range of the alphabet,
    every entry is under a well-formed shortcode, has a URL that
    [isValidUrl] accepts and a count that is not negative, and has its
    expiry in [expiryDatabase]. *)
Theorem reachable_entries_well_formed (rs : list request) (c : string) (d : urlData) :
  Forall draws_in_range rs →
  urlDatabase (run URL_protocol BASE_URL rs initial_store) !! c = Some d →
  entry_well_formed URL_protocol c d
  ∧ is_Some (expiryDatabase (run URL_protocol BASE_URL rs initial_store) !! c).
Proof.
  intros Hdraws Hd. split.
  - revert c d Hd. unfold run.
    assert (∀ c d, urlDatabase initial_store !! c = Some d →
                   entry_well_formed URL_protocol c d) as Hinit by done.
    revert Hinit. generalize initial_store.
    induction Hdraws as [|r rs Hr Hrs IH]; intros st Hinv; [done |].
    simpl. apply IH. by apply handle_well_formed.
  - apply (proj1 (store_consistent_lookup _) (run_consistent URL_protocol BASE_URL rs)).
    by rewrite Hd.
Qed.

End Reachable.

Lemma reachable_entries_well_formed_witness :
  entry_well_formed example_protocol "abc" (mkUrlData "https://example.com/" 5 1)
  ∧ is_Some (expiryDatabase
               (run example_protocol example_base
                  [PostShorturls 0 example_rand 0 0 5 abc_body; GetRedirect 10 "abc"]
                  initial_store) !! "abc").
Proof.
  apply (reachable_entries_well_formed example_protocol example_base
           [PostShorturls 0 example_rand 0 0 5 abc_body; GetRedirect 10 "abc"]).
  - constructor; [| constructor; [exact I | constructor]].
    intros k. unfold example_rand. apply Nat.mod_upper_bound. lia.
  - vm_compute. reflexivity.
Defined.

(** ** Requests in flight, whatever the store *)

Lemma resolve_seq_consistent (code : string) (nows : list Z) (st : store) :
  store_consistent st → store_consistent (resolve_seq nows code st).2.
Proof.
  revert st. induction nows as [|now nows IH]; intros st Hcons; simpl; [done |].
  apply IH. by apply resolve_consistent.
Qed.

Lemma answers_among_weaken (rs rs' : list response) (t : task) :
  answers_among rs t → answers_among (rs ++ rs') t.
Proof.
  destruct t as [|k|r]; simpl; [done | |].
  - intros (r & Hk & Hr). exists r. split; [done |]. apply elem_of_app. by left.
  - intros Hr. apply elem_of_app. by left.
Qed.

Section InFlight.

Variable code : string.

Lemma resolve_async_answers (now : Z) (st : store) :
  answers_among [(resolve now code st).1] (settle (resolve_async now code st).1).
Proof.
  unfold resolve, resolve_async. destruct (_ || _); simpl; [by left |].
  destruct (urlDatabase st !! code); [| simpl; eexists; split; [done | by left]].
  destruct (isExpired now st code); simpl; eexists; (split; [done | by left]).
Qed.

Lemma loop_step_answers (rs : list response) (ev : event) (st st' : store)
    (tasks tasks' : list task) :
  Forall (answers_among rs) tasks →
  loop_step code ev st tasks = Some (st', tasks') →
  st' = (resolve_seq (start_times [ev]) code st).2
  ∧ Forall (answers_among (rs ++ (resolve_seq (start_times [ev]) code st).1)) tasks'
  ∧ sum_list_with started tasks'
    = (sum_list_with started tasks + List.length (start_times [ev]))%nat.
Proof.
  intros Hall Hstep.
  assert (Forall (answers_among (rs ++ (resolve_seq (start_times [ev]) code st).1))
            tasks) as Hall'.
  { eapply Forall_impl; [exact Hall |]. intros t. apply answers_among_weaken. }
  destruct ev as [i now | i]; simpl in Hstep.
  - destruct (tasks !! i) as [[| |]|] eqn:Hi; simplify_eq.
    pose proof (sum_list_with_insert started tasks i Queued
                  (settle (resolve_async now code st).1) Hi) as Hsum.
    pose proof (resolve_async_answers now st) as Hans.
    split; [simpl; by rewrite resolve_async_store |].
    split.
    + apply Forall_insert; [done |]. simpl.
      destruct (settle (resolve_async now code st).1) as [|k|r]; simpl in *; [done | |].
      * destruct Hans as (r & Hk & Hr). exists r. split; [done |].
        apply elem_of_app. by right.
      * apply elem_of_app. by right.
    + simpl in *. destruct (resolve_async now code st).1; simpl in *; lia.
  - destruct (tasks !! i) as [[|k|]|] eqn:Hi; simplify_eq.
    pose proof (Forall_lookup_1 _ _ _ _ Hall' Hi) as (r & Hk & Hr).
    pose proof (sum_list_with_insert started tasks i (Suspended k)
                  (settle (k st).1) Hi) as Hsum.
    rewrite Hk in Hsum |- *. simpl in *.
    split; [done |]. split; [by apply Forall_insert | lia].
Qed.

Lemma loop_run_answers (evs : list event) :
  ∀ (rs : list response) (st st' : store) (tasks tasks' : list task),
    Forall (answers_among rs) tasks →
    loop_run code evs st tasks = Some (st', tasks') →
    Forall (answers_among (rs ++ (resolve_seq (start_times evs) code st).1)) tasks'
    ∧ sum_list_with started tasks'
      = (sum_list_with started tasks + List.length (start_times evs))%nat.
Proof.
  induction evs as [|ev evs IH]; intros rs st st' tasks tasks' Hall Hrun.
  - simpl in Hrun. simplify_eq. simpl. rewrite app_nil_r. split; [done | lia].
  - simpl in Hrun.
    destruct (loop_step code ev st tasks) as [[st1 tasks1]|] eqn:Hstep; [| done].
    destruct (loop_step_answers rs ev st st1 tasks tasks1 Hall Hstep)
      as (Hst1 & Hall1 & Hsum1).
    destruct (IH _ st1 st' tasks1 tasks' Hall1 Hrun) as (Hall' & Hsum').
    rewrite Hsum', Hsum1. subst st1.
    destruct ev as [i now | i]; simpl in *.
    + split; [| lia]. by rewrite <- app_assoc in Hall'.
    + split; [| lia]. by rewrite app_nil_r in Hall'.
Qed.

(** X15.  [n] requests for one shortcode arrive together, on any store and
    at any clocks (the entry may be live, expire in between, or be
    missing).  Whatever the interleaving of their segments, the store is
    the store of the [resolve]s run one after the other in the order of
    their starts, and every response sent is a response of that sequential
    run; the run has at most [2 * n] segments and, as long as a request is
    not finished, a segment to run; when all are finished, the sequential
    run has exactly [n] calls; and the two maps still hold the same
    shortcodes if they did before. *)
Theorem interleaving_is_sequential (n : nat) (evs : list event) (st st' : store)
    (tasks' : list task) :
  loop_run code evs st (replicate n Queued) = Some (st', tasks') →
  st' = (resolve_seq (start_times evs) code st).2
  ∧ (∀ i r, tasks' !! i = Some (Finished r) →
            r ∈ (resolve_seq (start_times evs) code st).1)
  ∧ (List.length evs ≤ 2 * n)%nat
  ∧ (forallb finished tasks' = false →
     ∃ ev, is_Some (loop_step code ev st' tasks'))
  ∧ (forallb finished tasks' = true → List.length (start_times evs) = n)
  ∧ (store_consistent st → store_consistent st').
Proof.
  intros Hrun.
  assert (Forall responding (replicate n Queued)) as Hresp.
  { by apply Forall_replicate. }
  destruct (loop_run_linear code evs st st' _ tasks' Hresp Hrun)
    as (Hlin & Hresp' & Hlen & Hsum).
  rewrite sum_list_with_replicate, length_replicate in *. simpl in Hsum.
  destruct (loop_run_answers evs [] st st' (replicate n Queued) tasks')
    as (Hans & Hstarted); [by apply Forall_replicate | done |].
  rewrite sum_list_with_replicate in Hstarted. simpl in Hans, Hstarted.
  split; [done |]. split; [| split; [lia | split; [| split]]].
  - intros i r Hi. exact (Forall_lookup_1 _ _ _ _ Hans Hi).
  - by apply unfinished_enabled.
  - intros Hfin. rewrite (finished_started tasks' Hfin) in Hstarted. lia.
  - intros Hcons. rewrite Hlin. by apply resolve_seq_consistent.
Qed.

End InFlight.

Lemma interleaving_is_sequential_witness :
  ∃ st' tasks',
    loop_run "abc" [Start 1 59000; Start 0 61000; Resume 0; Resume 1] abc_store
      (replicate 2 Queued) = Some (st', tasks')
    ∧ tasks' = [Finished gone; Finished (Redirect 302 "https://old.example/")]
    ∧ st' = (resolve_seq [59000; 61000] "abc" abc_store).2.
Proof.
  eexists _, _. split; [vm_compute; reflexivity |]. split; [reflexivity |].
  refine (proj1 (interleaving_is_sequential "abc" 2
                   [Start 1 59000; Start 0 61000; Resume 0; Resume 1]
                   abc_store _ _ _)).
  vm_compute. reflexivity.
Defined.

(** ** The logging module: what is posted and what is returned *)

Lemma includes_elem_of (l : list string) (s : string) :
  Logger.includes l s = true ↔ s ∈ l.
Proof.
  unfold Logger.includes. rewrite existsb_exists, list_elem_of_In. split.
  - intros (x & Hin & Heq). apply String.eqb_eq in Heq. by subst x.
  - intros Hin. exists s. split; [done | apply String.eqb_refl].
Qed.

Section LoggerProperties.

Variable toLowerCase : string → string.
Variable axios_post : Logger.post_call → option Logger.post_response.

(** The two outcomes of [log] as to what it posts. *)
Lemma log_cases (stack level packageName message : string)
    (authHeader : option string) :
  let r := Logger.log toLowerCase axios_post stack level packageName message
             authHeader in
  let fields_valid :=
    toLowerCase stack ∈ Logger.VALID_STACKS
    ∧ toLowerCase level ∈ Logger.VALID_LEVELS
    ∧ toLowerCase packageName ∈ Logger.VALID_PACKAGES in
  (¬ fields_valid ∧ r = (None, []))
  ∨ (fields_valid
     ∧ ∃ call, r.2 = [call]
               ∧ Logger.valid_call call
               ∧ Logger.post_data call
                 = Logger.mkLogData (toLowerCase stack) (toLowerCase level)
                     (toLowerCase packageName) message
               ∧ Logger.post_authorization call = authHeader).
Proof.
  intros r fields_valid. subst r fields_valid. unfold Logger.log.
  destruct (Logger.includes Logger.VALID_STACKS (toLowerCase stack)) eqn:H1; simpl.
  2: { left. split; [| done]. intros (H & _). apply includes_elem_of in H. congruence. }
  destruct (Logger.includes Logger.VALID_LEVELS (toLowerCase level)) eqn:H2; simpl.
  2: { left. split; [| done]. intros (_ & H & _). apply includes_elem_of in H. congruence. }
  destruct (Logger.includes Logger.VALID_PACKAGES (toLowerCase packageName)) eqn:H3; simpl.
  2: { left. split; [| done]. intros (_ & _ & H). apply includes_elem_of in H. congruence. }
  apply includes_elem_of in H1, H2, H3. right. split; [done |].
  eexists. split.
  - destruct (axios_post _) as [response|]; [| reflexivity].
    destruct (Logger.status response =? 200); [| reflexivity].
    destruct (truthy (Logger.logID response)); reflexivity.
  - done.
Qed.

(** X16.  [log] posts nothing and returns [null] when the stack, the level
    or the package, in lower case, is not one of the valid values.
    Otherwise it posts exactly one record, to the URL of the service with
    a timeout of 5000 ms and the authorization it was given: the record
    has the three fields in lower case, each one of the valid values, and
    the message as it is. *)
Theorem log_posts_valid_record (stack level packageName message : string)
    (authHeader : option string) :
  let r := Logger.log toLowerCase axios_post stack level packageName message
             authHeader in
  let fields_valid :=
    toLowerCase stack ∈ Logger.VALID_STACKS
    ∧ toLowerCase level ∈ Logger.VALID_LEVELS
    ∧ toLowerCase packageName ∈ Logger.VALID_PACKAGES in
  (¬ fields_valid ∧ r = (None, []))
  ∨ (fields_valid
     ∧ ∃ call, r.2 = [call]
               ∧ Logger.valid_call call
               ∧ Logger.post_data call
                 = Logger.mkLogData (toLowerCase stack) (toLowerCase level)
                     (toLowerCase packageName) message
               ∧ Logger.post_authorization call = authHeader).
Proof. apply log_cases. Qed.

(** X17.  [log] returns an identifier exactly when the three fields are
    valid and the service has answered the post with the status 200 and
    that identifier, not empty, as [logID]; in every other case (a field
    that is not valid, a rejected post, another status, no [logID]) it
    returns [null]. *)
Theorem log_returns_logID (stack level packageName message : string)
    (authHeader : option string) (id : string) :
  (Logger.log toLowerCase axios_post stack level packageName message authHeader).1
  = Some id
  ↔ toLowerCase stack ∈ Logger.VALID_STACKS
    ∧ toLowerCase level ∈ Logger.VALID_LEVELS
    ∧ toLowerCase packageName ∈ Logger.VALID_PACKAGES
    ∧ id ≠ ""
    ∧ axios_post
        (Logger.mkPostCall Logger.API_URL
           (Logger.mkLogData (toLowerCase stack) (toLowerCase level)
              (toLowerCase packageName) message)
           "application/json" authHeader 5000)
      = Some (Logger.mkPostResponse 200 (Some id)).
Proof.
  unfold Logger.log.
  destruct (Logger.includes Logger.VALID_STACKS (toLowerCase stack)) eqn:H1; simpl.
  2: { split; [done |]. intros (H & _). apply includes_elem_of in H. congruence. }
  destruct (Logger.includes Logger.VALID_LEVELS (toLowerCase level)) eqn:H2; simpl.
  2: { split; [done |]. intros (_ & H & _). apply includes_elem_of in H. congruence. }
  destruct (Logger.includes Logger.VALID_PACKAGES (toLowerCase packageName)) eqn:H3; simpl.
  2: { split; [done |]. intros (_ & _ & H & _). apply includes_elem_of in H. congruence. }
  apply includes_elem_of in H1, H2, H3.
  destruct (axios_post _) as [[status logID]|]; simpl.
  2: { split; [done | by intros (_ & _ & _ & _ & ?)]. }
  destruct (Z.eqb_spec status 200) as [-> | Hne].
  2: { split; [done |]. intros (_ & _ & _ & _ & [= -> _]). done. }
  destruct logID as [s|]; simpl.
  2: { split; [done | by intros (_ & _ & _ & _ & ?)]. }
  destruct (String.eqb_spec s "") as [-> | Hs]; simpl.
  - split; [done |]. intros (_ & _ & _ & Hid & [= <-]). done.
  - split.
    + intros [= <-]. done.
    + intros (_ & _ & _ & _ & [= <-]). done.
Qed.

(** X18.  With a [toLowerCase] that leaves "backend", "handler", "info",
    "warn" and "error" as they are, [requestLogger] posts exactly one
    valid record when a request starts, with the level "info", and exactly
    one when its response ends, with the level "error" for a status of 500
    or more, "warn" for a status from 400 to 499 and "info" below; both
    have the stack "backend" and the package "handler". *)
Theorem requestLogger_posts (req : Logger.request_info) (requestId : string)
    (startTime endTime statusCode : Z) :
  toLowerCase "backend" = "backend" → toLowerCase "handler" = "handler" →
  toLowerCase "info" = "info" → toLowerCase "warn" = "warn" →
  toLowerCase "error" = "error" →
  (∃ call,
     (Logger.requestLogger_start toLowerCase axios_post req requestId).2 = [call]
     ∧ Logger.valid_call call
     ∧ Logger.stack (Logger.post_data call) = "backend"
     ∧ Logger.level (Logger.post_data call) = "info"
     ∧ Logger.package (Logger.post_data call) = "handler")
  ∧ (∃ call,
       (Logger.requestLogger_end toLowerCase axios_post req requestId
          startTime endTime statusCode).2 = [call]
       ∧ Logger.valid_call call
       ∧ Logger.stack (Logger.post_data call) = "backend"
       ∧ Logger.package (Logger.post_data call) = "handler"
       ∧ (500 ≤ statusCode → Logger.level (Logger.post_data call) = "error")
       ∧ (400 ≤ statusCode < 500 → Logger.level (Logger.post_data call) = "warn")
       ∧ (statusCode < 400 → Logger.level (Logger.post_data call) = "info")).
Proof.
  intros Hb Hh Hi Hw He.
  assert (toLowerCase (Logger.response_level statusCode)
          = Logger.response_level statusCode
          ∧ Logger.response_level statusCode ∈ Logger.VALID_LEVELS
          ∧ (500 ≤ statusCode → Logger.response_level statusCode = "error")
          ∧ (400 ≤ statusCode < 500 → Logger.response_level statusCode = "warn")
          ∧ (statusCode < 400 → Logger.response_level statusCode = "info"))
    as (Hl & Hlv & H500 & H400 & Hlow).
  { unfold Logger.response_level.
    destruct (Z.leb_spec 500 statusCode); [| destruct (Z.leb_spec 400 statusCode)].
    - split; [done |]. split; [by apply includes_elem_of |]. repeat split; intros; (done || lia).
    - split; [done |]. split; [by apply includes_elem_of |]. repeat split; intros; (done || lia).
    - split; [done |]. split; [by apply includes_elem_of |]. repeat split; intros; (done || lia). }
  split.
  - destruct (log_cases "backend" "info" "handler"
                ("Request started - " +:+ Logger.method req +:+ " " +:+ Logger.path req
                 +:+ " (ID: " +:+ requestId +:+ ") | IP: " +:+ Logger.ip req)
                (Logger.authorization req))
      as [[Hnot _] | (_ & call & Hcall & Hvalid & Hdata & _)].
    + exfalso. apply Hnot. rewrite Hb, Hi, Hh. repeat split; by apply includes_elem_of.
    + exists call. split; [exact Hcall |]. split; [done |].
      rewrite Hdata. simpl. by rewrite Hb, Hi, Hh.
  - destruct (log_cases "backend" (Logger.response_level statusCode)
                "handler"
                ("Request completed - " +:+ Logger.method req +:+ " "
                 +:+ Logger.path req +:+ " (ID: " +:+ requestId +:+ ") | Status: "
                 +:+ pretty statusCode +:+ " | Duration: "
                 +:+ pretty (endTime - startTime) +:+ "ms")
                (Logger.authorization req))
      as [[Hnot _] | (_ & call & Hcall & Hvalid & Hdata & _)].
    + exfalso. apply Hnot. rewrite Hb, Hl, Hh. repeat split; [by apply includes_elem_of | done | by apply includes_elem_of].
    + exists call. split; [exact Hcall |]. split; [done |].
      rewrite Hdata. simpl. rewrite Hb, Hl, Hh. auto.
Qed.

End LoggerProperties.

Lemma requestLogger_posts_witness :
  ∃ call,
    (Logger.requestLogger_end example_toLowerCase example_service
       (Logger.mkRequestInfo "GET" "/abc" "127.0.0.1" None) "k3j2h1g0f" 1000 1012 404).2
    = [call]
    ∧ Logger.valid_call call
    ∧ Logger.stack (Logger.post_data call) = "backend"
    ∧ Logger.package (Logger.post_data call) = "handler"
    ∧ (500 ≤ 404 → Logger.level (Logger.post_data call) = "error")
    ∧ (400 ≤ 404 < 500 → Logger.level (Logger.post_data call) = "warn")
    ∧ (404 < 400 → Logger.level (Logger.post_data call) = "info").
Proof.
  apply (requestLogger_posts example_toLowerCase example_service
           (Logger.mkRequestInfo "GET" "/abc" "127.0.0.1" None) "k3j2h1g0f"
           1000 1012 404); reflexivity.
Defined.

(** ** The expiry a creation gives *)

Section CreateExpiry.

Variable URL_protocol : string → option string.
Variable BASE_URL : string.

(** X19.  A creation that answers 201 gives the expiry [Date.now()] plus
    the validity in minutes, 30 minutes when the request has no validity;
    the validity is a positive integer, so that the entry is not expired
    for at least a minute from that clock on. *)
Theorem create_expiry (fuel : nat) (rand : nat → nat) (pos : nat)
    (now created : Z) (body : create_body) (st st' : store) (link : string) (e : Z) :
  create URL_protocol BASE_URL fuel rand pos now created body st
  = (Some (Json 201 (CreatedBody link e)), st') →
  ∃ v c,
    validity_or_default (validity body) = ValidityInteger v
    ∧ 0 < v
    ∧ e = now + v * 60 * 1000
    ∧ (validity body = ValidityAbsent → e = now + 1800000)
    ∧ link = BASE_URL +:+ "/" +:+ c
    ∧ expiryDatabase st' !! c = Some (ValidDate e)
    ∧ ∀ t, t ≤ now + 60000 → isExpired t st' c = false.
Proof.
  intros Hcreate.
  destruct (create_cases URL_protocol BASE_URL fuel rand pos now created body st)
    as [[_ [Hnone | (resp & Hresp & Hstatus)]]
       | (u & v & c & _ & _ & Hv & Hpos & _ & _ & Hr)];
    rewrite Hcreate in *; simpl in *.
  - discriminate.
  - injection Hresp as <-. simpl in Hstatus. lia.
  - destruct (create_store_cases BASE_URL now created u c v st)
      as (Hst & [[Hclip Hresp] | [_ Hstatus]]).
    2: { injection Hr as Hr1 Hr2. rewrite <- Hr1 in Hstatus. discriminate. }
    injection Hr as Hr1 Hr2. rewrite Hresp in Hr1. injection Hr1 as -> ->.
    rewrite Hst, Hclip in Hr2. subst st'.
    exists v, c. split; [done |]. split; [done |]. split; [done |].
    split.
    { intros Habs. rewrite Habs in Hv. simpl in Hv. injection Hv as <-. lia. }
    split; [done |]. simpl. rewrite lookup_insert_eq. split; [done |].
    intros t Ht. unfold isExpired. simpl.
    rewrite lookup_insert_eq, Date_gt_valid. apply Z.ltb_ge. lia.
Qed.

End CreateExpiry.

Lemma create_expiry_witness :
  ∃ v c,
    validity_or_default (validity abc_body) = ValidityInteger v
    ∧ 0 < v
    ∧ 60000 = 0 + v * 60 * 1000
    ∧ (validity abc_body = ValidityAbsent → 60000 = 0 + 1800000)
    ∧ "http://localhost:3000/abc" = example_base +:+ "/" +:+ c
    ∧ expiryDatabase
        (mkStore (<["abc" := mkUrlData "https://example.com/" 5 0]> ∅)
                 (<["abc" := ValidDate 60000]> ∅)) !! c
      = Some (ValidDate 60000)
    ∧ ∀ t, t ≤ 0 + 60000 →
           isExpired t
             (mkStore (<["abc" := mkUrlData "https://example.com/" 5 0]> ∅)
                      (<["abc" := ValidDate 60000]> ∅)) c = false.
Proof.
  apply (create_expiry example_protocol example_base 0 example_rand 0 0 5
           abc_body initial_store).
  vm_compute. reflexivity.
Defined.

(** The validation of [log] does not depend on the case of its arguments. *)
Example log_upper_case :
  Logger.log example_toLowerCase example_service "BACKEND" "Info" "Handler" "m" None
  = (Some "log-1",
     [Logger.mkPostCall Logger.API_URL
        (Logger.mkLogData "backend" "info" "handler" "m") "application/json" None 5000]).
Proof. reflexivity. Qed.

Example log_unknown_package :
  Logger.log example_toLowerCase example_service "backend" "info" "request" "m" None
  = (None, []).
Proof. reflexivity. Qed.

Example requestLogger_end_message :
  Logger.message
    <$> (Logger.post_data
           <$> (Logger.requestLogger_end example_toLowerCase example_service
                  (Logger.mkRequestInfo "GET" "/abc" "::1" None) "k3j2h1g0f"
                  1000 1012 404).2)
  = ["Request completed - GET /abc (ID: k3j2h1g0f) | Status: 404 | Duration: 12ms"].
Proof. vm_compute. reflexivity. Qed.
